(** * usdRelayer: reordering prepended references and sublayers of USDA layers

    A shallow embedding of [usda_sublayer_editor.py] together with the
    properties stated about it.  The file has three parts:

    - [Sdf]: the part of the scene-description library ([pxr.Sdf]) that the
      program calls (layers found or opened by identifier, reloaded from and
      saved to disk, prim specs in a tree, list-valued fields);
    - the three facades of the program, [UsdPrimRefEditor],
      [UsdaSublayerEditor] and [get_prim_paths_with_prepended_refs], written in
      a state-and-exception monad so that they read like the Python methods;
    - the theorems. *)

From stdpp Require Import gmap strings list fin_maps.
From Stdlib Require Import Permutation.
From Equations Require Import Equations.

Open Scope string_scope.

(** ** Exceptions

    Every failure that the program raises is a Python [RuntimeError]; the
    raise sites differ by their message only.  One constructor stands for
    each raise site and carries the value that the message is formatted
    with; a last one stands for the errors of the library. *)
Inductive RuntimeError : Type :=
  | LayerOpenError (usda_path : string)
      (* "Could not open USD layer: {usda_path}" *)
  | PrimNotFoundError (prim_path : string)
      (* "Could not find prim at path: {prim_path}" *)
  | NoReferencesError
      (* "Prim has no references to reorder." *)
  | NoPrependedReferencesError
      (* "No prepended references found on prim." *)
  | UnknownReferenceError (missing : string)
      (* "Unknown reference path in new_order: {missing}", where [missing] is
         the key of the [KeyError] *)
  | LibraryError.
      (* an error that the library raises inside a call and that the
         program lets through *)

(** ** A state-and-exception monad

    A computation runs on a state, and ends with a value or with a raised
    [RuntimeError]; the state reached is kept in both cases, as a Python
    exception does not undo the assignments made before it. *)
Definition M (S A : Type) : Type := S → (RuntimeError + A) * S.

#[global] Instance M_ret {S} : MRet (M S) := λ A a s, (inr a, s).

#[global] Instance M_bind {S} : MBind (M S) := λ A B f m s,
  match m s with
  | (inl e, s') => (inl e, s')
  | (inr a, s') => f a s'
  end.

Definition raise {S A} (e : RuntimeError) : M S A := λ s, (inl e, s).
Definition gets {S A} (f : S → A) : M S A := λ s, (inr (f s), s).
Definition modify {S} (f : S → S) : M S unit := λ s, (inr tt, f s).

(** ** The scene-description library, as far as the program uses it

    [pxr.Sdf] is not part of the program.  It is taken with the operations
    that the program calls, each with the meaning that the program relies
    on: a layer is found or opened by its file path, [Reload] brings the
    in-memory content of a layer back to the content of its file, [Save]
    writes the in-memory content to the file, a layer has root prims and
    sublayer paths, a prim spec has a path, children and a reference-list
    operation with its prepended items.  Three facts of the library matter
    to the program: [spec.referenceList] is a list-operation proxy for every
    prim, never [None]; the path "/" is the path of the pseudo-root, which
    [GetPrimAtPath] returns; and an assignment to [subLayerPaths] is refused
    when the list has a repeated or an empty path. *)
Module Sdf.

(** A reference: its asset path, and the prim path inside the asset as a
    representative of the fields the program never looks at. *)
Record Reference : Type := mkReference {
  assetPath : string;
  primPath : string
}.

#[global] Instance Reference_eq_dec : EqDecision Reference.
Proof. solve_decision. Defined.

(** The reference-list operation of a prim. *)
Record ReferenceListOp : Type := mkReferenceListOp {
  prependedItems : list Reference;
  appendedItems : list Reference
}.

#[local] Unset Elimination Schemes.

(** A prim spec: its path in the layer, the reference-list operation
    authored on it ([None] when the prim has none), and its direct
    children.  The tree is finite and acyclic by construction. *)
Inductive PrimSpec : Type := mkPrimSpec {
  path : string;
  referenceList : option ReferenceListOp;
  nameChildren : list PrimSpec
}.

#[local] Set Elimination Schemes.

(** [spec.referenceList], as Python reads it: a proxy of the list operation
    for every prim, with empty lists when none is authored; never [None]. *)
Definition get_referenceList (spec : PrimSpec) : option ReferenceListOp :=
  Some (match referenceList spec with
        | Some op => op
        | None => mkReferenceListOp [] []
        end).

(** The content of one layer document. *)
Record LayerData : Type := mkLayerData {
  subLayerPaths : list string;
  rootPrims : list PrimSpec
}.

(** The first spec, in document order, with the given path, among a spec
    and its descendants. *)
Fixpoint find_spec (target : string) (spec : PrimSpec) : option PrimSpec :=
  match spec with
  | mkPrimSpec p _ children =>
      if String.eqb p target then Some spec
      else
        (fix among (specs : list PrimSpec) : option PrimSpec :=
           match specs with
           | [] => None
           | child :: rest =>
               match find_spec target child with
               | Some found => Some found
               | None => among rest
               end
           end) children
  end.

Fixpoint find_among (target : string) (specs : list PrimSpec)
  : option PrimSpec :=
  match specs with
  | [] => None
  | spec :: rest =>
      match find_spec target spec with
      | Some found => Some found
      | None => find_among target rest
      end
  end.

(** The pseudo-root of a layer: the spec at the path "/", above the root
    prims, without references. *)
Definition pseudoRoot (data : LayerData) : PrimSpec :=
  mkPrimSpec "/" None (rootPrims data).

(** The spec at a path: a prim of the tree, or the pseudo-root for "/" (no
    prim of a layer has that path). *)
Definition prim_at (data : LayerData) (prim_path : string)
  : option PrimSpec :=
  match find_among prim_path (rootPrims data) with
  | Some spec => Some spec
  | None => if String.eqb prim_path "/" then Some (pseudoRoot data) else None
  end.

(** Assigning the prepended items of the spec at [target]: every spec with
    that path gets the new list (paths are unique in a layer that the
    library produced).  On a spec without an authored operation the program
    can only assign the empty list, which leaves it without one. *)
Definition assign_prepended (items : list Reference)
    (op : option ReferenceListOp) : option ReferenceListOp :=
  match op with
  | Some o => Some (mkReferenceListOp items (appendedItems o))
  | None => None
  end.

Fixpoint assign_spec (target : string) (items : list Reference)
    (spec : PrimSpec) : PrimSpec :=
  match spec with
  | mkPrimSpec p op children =>
      mkPrimSpec p
        (if String.eqb p target then assign_prepended items op else op)
        (List.map (assign_spec target items) children)
  end.

(** What an assignment of prepended items under [target] makes of the
    content of a layer. *)
Definition assign_data (target : string) (items : list Reference)
    (data : LayerData) : LayerData :=
  mkLayerData (subLayerPaths data)
    (List.map (assign_spec target items) (rootPrims data)).

(** A layer object is known by its identifier: [FindOrOpen] returns the
    same object for the same identifier. *)
Abbreviation Layer := string.

(** The calls of the program that re-read or change a layer, for the record
    of what a method did. *)
Inductive Call : Type :=
  | Reloaded (layer : Layer)
  | AssignedPrepended (layer : Layer) (prim_path : string)
      (items : list Reference)
  | AssignedSubLayerPaths (layer : Layer) (paths : list string)
  | Saved (layer : Layer).

(** The world of the library: the documents on disk, by file path, the
    in-memory content of the layers that are open, by identifier, and the
    calls made so far, the latest last.  The program cannot read
    [calls]. *)
Record World : Type := mkWorld {
  disk : gmap string LayerData;
  registry : gmap string LayerData;
  calls : list Call
}.

(** A prim spec obtained from a layer: the data read, and the layer that a
    write through the spec goes to. *)
Record PrimSpecHandle : Type := mkHandle {
  handle_layer : Layer;
  handle_spec : PrimSpec
}.

(** [Sdf.Layer.FindOrOpen(identifier)]: the layer that is already open, or
    else a layer opened from the file; [None] when there is no such file. *)
Definition FindOrOpen (identifier : string) (w : World)
  : option Layer * World :=
  match registry w !! identifier with
  | Some _ => (Some identifier, w)
  | None =>
      match disk w !! identifier with
      | Some data =>
          (Some identifier,
           mkWorld (disk w) (<[identifier := data]> (registry w)) (calls w))
      | None => (None, w)
      end
  end.

(** [layer.Reload()]: the in-memory content becomes the content of the file;
    unsaved changes are lost.  Without a file the reload fails and the
    content stays (the program ignores the returned flag). *)
Definition Reload (layer : Layer) (w : World) : World :=
  mkWorld (disk w)
    (match disk w !! layer with
     | Some data => <[layer := data]> (registry w)
     | None => registry w
     end)
    (calls w ++ [Reloaded layer]).

(** [layer.Save()]: the file gets the in-memory content. *)
Definition Save (layer : Layer) (w : World) : World :=
  mkWorld
    (match registry w !! layer with
     | Some data => <[layer := data]> (disk w)
     | None => disk w
     end)
    (registry w)
    (calls w ++ [Saved layer]).

(** The content that a layer has once it is found or opened and then
    reloaded: the content of its file, or without a file what the open
    layer holds. *)
Definition current (layer : Layer) (w : World) : option LayerData :=
  match disk w !! layer with
  | Some data => Some data
  | None => registry w !! layer
  end.

(** [layer.GetPrimAtPath(Sdf.Path(prim_path))] *)
Definition GetPrimAtPath (layer : Layer) (prim_path : string) (w : World)
  : option PrimSpecHandle :=
  data ← registry w !! layer;
  spec ← prim_at data prim_path;
  Some (mkHandle layer spec).

(** [spec.referenceList.prependedItems = items], through the handle. *)
Definition set_prependedItems (h : PrimSpecHandle) (items : list Reference)
    (w : World) : World :=
  mkWorld (disk w)
    (match registry w !! handle_layer h with
     | Some data =>
         <[handle_layer h := assign_data (path (handle_spec h)) items data]>
           (registry w)
     | None => registry w
     end)
    (calls w ++ [AssignedPrepended (handle_layer h) (path (handle_spec h))
                   items]).

(** [layer.subLayerPaths] and [layer.rootPrims] of an open layer. *)
Definition get_subLayerPaths (layer : Layer) (w : World) : list string :=
  match registry w !! layer with
  | Some data => subLayerPaths data
  | None => []
  end.

Definition get_rootPrims (layer : Layer) (w : World) : list PrimSpec :=
  match registry w !! layer with
  | Some data => rootPrims data
  | None => []
  end.

(** The lists that the library accepts as sublayer paths: no path twice, no
    empty path. *)
Definition valid_subLayerPaths (paths : list string) : bool :=
  bool_decide (NoDup paths) && bool_decide ("" ∉ paths).

(** [layer.subLayerPaths = paths]: [None] when the library refuses the list
    and raises, with nothing assigned. *)
Definition set_subLayerPaths (layer : Layer) (paths : list string)
    (w : World) : option World :=
  if valid_subLayerPaths paths then
    Some (mkWorld (disk w)
            (match registry w !! layer with
             | Some data =>
                 <[layer := mkLayerData paths (rootPrims data)]> (registry w)
             | None => registry w
             end)
            (calls w ++ [AssignedSubLayerPaths layer paths]))
  else None.

End Sdf.

(** ** Objects and the library world

    A method runs on its object ([self]) and on the world of the library. *)
Record Env (Self : Type) : Type := mkEnv {
  self : Self;
  sdf : Sdf.World
}.
Arguments mkEnv {Self} _ _.
Arguments self {Self} _.
Arguments sdf {Self} _.

(** A library call that returns a value. *)
Definition sdf_call {Self A} (f : Sdf.World → A * Sdf.World)
  : M (Env Self) A :=
  λ s, let '(a, w) := f (sdf s) in (inr a, mkEnv (self s) w).

(** A library call that only reads. *)
Definition sdf_read {Self A} (f : Sdf.World → A) : M (Env Self) A :=
  λ s, (inr (f (sdf s)), s).

(** A library call that only writes. *)
Definition sdf_write {Self} (f : Sdf.World → Sdf.World)
  : M (Env Self) unit :=
  λ s, (inr tt, mkEnv (self s) (f (sdf s))).

(** A library call that writes, or raises. *)
Definition sdf_try {Self} (f : Sdf.World → option Sdf.World)
  : M (Env Self) unit :=
  λ s, match f (sdf s) with
       | Some w => (inr tt, mkEnv (self s) w)
       | None => (inl LibraryError, s)
       end.

(** Python truth value of a list. *)
Definition truthy {A} (l : list A) : bool :=
  match l with
  | [] => false
  | _ :: _ => true
  end.

(** [s.startswith(pre)] *)
Definition startswith (s pre : string) : bool := String.prefix pre s.

(** ** [class UsdPrimRefEditor] *)
Module UsdPrimRefEditor.

Record t : Type := mk {
  usda_path : string;
  prim_path : string;
  _layer : option Sdf.Layer
}.

Definition set__layer (layer : option Sdf.Layer) (s : Env t) : Env t :=
  mkEnv (mk (usda_path (self s)) (prim_path (self s)) layer) (sdf s).

(** [UsdPrimRefEditor(usda_path, prim_path)] *)
Definition __init__ (usda_path prim_path : string) : t :=
  mk usda_path
     (if startswith prim_path "/" then prim_path else "/" ++ prim_path)
     None.

(** [self._get_layer()] *)
Definition _get_layer : M (Env t) Sdf.Layer :=
  this ← gets self;
  layer ← match _layer this with
          | None =>
              found ← sdf_call (Sdf.FindOrOpen (usda_path this));
              match found with
              | None => raise (LayerOpenError (usda_path this))
              | Some layer => modify (set__layer (Some layer));; mret layer
              end
          | Some layer => mret layer
          end;
  sdf_write (Sdf.Reload layer);;
  mret layer.

(** [self._get_prim_spec()] *)
Definition _get_prim_spec : M (Env t) Sdf.PrimSpecHandle :=
  layer ← _get_layer;
  this ← gets self;
  prim_spec ← sdf_read (Sdf.GetPrimAtPath layer (prim_path this));
  match prim_spec with
  | None => raise (PrimNotFoundError (prim_path this))
  | Some prim_spec => mret prim_spec
  end.

(** [self.load_primrefs()] *)
Definition load_primrefs : M (Env t) (list string) :=
  prim_spec ← _get_prim_spec;
  match Sdf.get_referenceList (Sdf.handle_spec prim_spec) with
  | None => mret []
  | Some ref_list_op =>
      let prepended_refs := Sdf.prependedItems ref_list_op in
      mret (List.map Sdf.assetPath prepended_refs)
  end.

(** [{ref.assetPath: ref for ref in original_refs}]: a later reference
    replaces an earlier one with the same asset path. *)
Definition by_asset_of (original_refs : list Sdf.Reference)
  : gmap string Sdf.Reference :=
  fold_left (λ d ref, <[Sdf.assetPath ref := ref]> d) original_refs ∅.

(** [[by_asset[path] for path in new_order]]: the references looked up in
    order, or the first key that is missing (the [KeyError]). *)
Fixpoint lookup_each (by_asset : gmap string Sdf.Reference)
    (new_order : list string) : string + list Sdf.Reference :=
  match new_order with
  | [] => inr []
  | path :: rest =>
      match by_asset !! path with
      | None => inl path
      | Some ref =>
          match lookup_each by_asset rest with
          | inl missing => inl missing
          | inr refs => inr (ref :: refs)
          end
      end
  end.

(** [self.save_primrefs(new_order)] *)
Definition save_primrefs (new_order : list string) : M (Env t) unit :=
  prim_spec ← _get_prim_spec;
  match Sdf.get_referenceList (Sdf.handle_spec prim_spec) with
  | None => raise NoReferencesError
  | Some ref_list_op =>
      let original_refs := Sdf.prependedItems ref_list_op in
      if negb (truthy original_refs) && truthy new_order
      then raise NoPrependedReferencesError
      else
        let by_asset := by_asset_of original_refs in
        match lookup_each by_asset new_order with
        | inl missing => raise (UnknownReferenceError missing)
        | inr reordered_refs =>
            sdf_write (Sdf.set_prependedItems prim_spec reordered_refs);;
            layer ← _get_layer;
            sdf_write (Sdf.Save layer)
        end
  end.

(** The layer cached by an editor, if any, is the one of its file: the
    constructor caches none, and [_get_layer] caches the layer found under
    [usda_path]. *)
Definition cache_ok (e : t) : Prop :=
  _layer e = None ∨ _layer e = Some (usda_path e).

(** The state after [_get_layer] on a file with content [data]: the layer is
    cached and its in-memory content is the content of the file. *)
Definition reloaded (e : t) (w : Sdf.World) (data : Sdf.LayerData) : Env t :=
  mkEnv (mk (usda_path e) (prim_path e) (Some (usda_path e)))
        (Sdf.mkWorld (Sdf.disk w)
           (<[usda_path e := data]> (Sdf.registry w))
           (Sdf.calls w ++ [Sdf.Reloaded (usda_path e)])).

(** The state after a [save_primrefs] that got as far as [Save], on a layer
    with content [data]: the four calls are on record; with a file on disk
    the second reload has brought [data] back, and without one the layer
    has kept the assigned items and [Save] has written them. *)
Definition saved (e : t) (w : Sdf.World) (data : Sdf.LayerData)
    (spec : Sdf.PrimSpec) (items : list Sdf.Reference) : Env t :=
  let kept :=
    match Sdf.disk w !! usda_path e with
    | Some _ => data
    | None => Sdf.assign_data (Sdf.path spec) items data
    end in
  mkEnv (mk (usda_path e) (prim_path e) (Some (usda_path e)))
        (Sdf.mkWorld (<[usda_path e := kept]> (Sdf.disk w))
           (<[usda_path e := kept]> (Sdf.registry w))
           (Sdf.calls w ++
              [Sdf.Reloaded (usda_path e);
               Sdf.AssignedPrepended (usda_path e) (Sdf.path spec) items;
               Sdf.Reloaded (usda_path e);
               Sdf.Saved (usda_path e)])).

(** An editor after a method call: the same file and prim path, and the
    cache invariant. *)
Definition same_editor (e e' : t) : Prop :=
  usda_path e' = usda_path e ∧ prim_path e' = prim_path e ∧ cache_ok e'.

End UsdPrimRefEditor.

(** ** [class UsdaSublayerEditor] *)
Module UsdaSublayerEditor.

Record t : Type := mk {
  usda_path : string;
  _layer : option Sdf.Layer
}.

Definition set__layer (layer : option Sdf.Layer) (s : Env t) : Env t :=
  mkEnv (mk (usda_path (self s)) layer) (sdf s).

(** [UsdaSublayerEditor(usda_path)] *)
Definition __init__ (usda_path : string) : t := mk usda_path None.

(** [self._get_layer()] *)
Definition _get_layer : M (Env t) Sdf.Layer :=
  this ← gets self;
  layer ← match _layer this with
          | None =>
              found ← sdf_call (Sdf.FindOrOpen (usda_path this));
              match found with
              | None => raise (LayerOpenError (usda_path this))
              | Some layer => modify (set__layer (Some layer));; mret layer
              end
          | Some layer => mret layer
          end;
  sdf_write (Sdf.Reload layer);;
  mret layer.

(** [self.load_sublayers()] *)
Definition load_sublayers : M (Env t) (list string) :=
  layer ← _get_layer;
  sdf_read (Sdf.get_subLayerPaths layer).

(** [self.save_sublayers(new_order)] *)
Definition save_sublayers (new_order : list string) : M (Env t) unit :=
  layer ← _get_layer;
  sdf_try (Sdf.set_subLayerPaths layer new_order);;
  sdf_write (Sdf.Save layer).

(** The layer cached by an editor, if any, is the one of its file. *)
Definition cache_ok (e : t) : Prop :=
  _layer e = None ∨ _layer e = Some (usda_path e).

(** The state after [_get_layer] on a file with content [data]. *)
Definition reloaded (e : t) (w : Sdf.World) (data : Sdf.LayerData) : Env t :=
  mkEnv (mk (usda_path e) (Some (usda_path e)))
        (Sdf.mkWorld (Sdf.disk w)
           (<[usda_path e := data]> (Sdf.registry w))
           (Sdf.calls w ++ [Sdf.Reloaded (usda_path e)])).

End UsdaSublayerEditor.

(** ** [get_prim_paths_with_prepended_refs] *)

(** The number of specs in a subtree, and in the subtrees of a list: what
    is left for the loop to visit. *)
Fixpoint spec_size (spec : Sdf.PrimSpec) : nat :=
  match spec with
  | Sdf.mkPrimSpec _ _ children => S (list_sum (List.map spec_size children))
  end.

Definition forest_size (specs : list Sdf.PrimSpec) : nat :=
  list_sum (List.map spec_size specs).

(** [ref_list_op is not None and list(ref_list_op.prependedItems)] *)
Definition has_prepended_refs (spec : Sdf.PrimSpec) : bool :=
  match Sdf.get_referenceList spec with
  | None => false
  | Some ref_list_op => truthy (Sdf.prependedItems ref_list_op)
  end.

Lemma forest_size_app (l1 l2 : list Sdf.PrimSpec) :
  forest_size (l1 ++ l2) = forest_size l1 + forest_size l2.
Proof.
  unfold forest_size. induction l1 as [|x l1 IH]; simpl; [done|].
  rewrite IH. lia.
Qed.

Lemma forest_size_rev (l : list Sdf.PrimSpec) :
  forest_size (rev l) = forest_size l.
Proof.
  induction l as [|x l IH]; simpl; [done|].
  rewrite forest_size_app, IH. unfold forest_size. simpl. lia.
Qed.

(** The [while stack:] loop.  The Python list [stack] is kept with its last
    element first, so that [stack.pop()] takes the head and the appended
    children, the last child on top, come in front as [rev children]. *)
Equations? visit (stack : list Sdf.PrimSpec) (result : list string)
  : list string by wf (forest_size stack) lt :=
  visit [] result := result;
  visit (spec :: rest) result :=
    visit (rev (Sdf.nameChildren spec) ++ rest)
          (if has_prepended_refs spec
           then result ++ [Sdf.path spec]
           else result).
Proof.
  rewrite forest_size_app, forest_size_rev.
  destruct spec as [p op children]. unfold forest_size. simpl. lia.
Qed.

(** [get_prim_paths_with_prepended_refs(usda_path)] *)
Definition get_prim_paths_with_prepended_refs (usda_path : string)
  : M Sdf.World (list string) :=
  found ← (λ w, let '(l, w') := Sdf.FindOrOpen usda_path w in (inr l, w'));
  match found with
  | None => raise (LayerOpenError usda_path)
  | Some layer =>
      modify (Sdf.Reload layer);;
      root_prims ← gets (Sdf.get_rootPrims layer);
      mret (visit (rev root_prims) [])
  end.

(** ** The prims of a layer *)

(** [subspec s r]: [s] is [r] or one of its descendants. *)
Inductive subspec : Sdf.PrimSpec → Sdf.PrimSpec → Prop :=
  | subspec_self (s : Sdf.PrimSpec) : subspec s s
  | subspec_child (s c r : Sdf.PrimSpec) :
      c ∈ Sdf.nameChildren r → subspec s c → subspec s r.

(** The prims of a layer: the root prims and their descendants. *)
Definition spec_in_layer (data : Sdf.LayerData) (s : Sdf.PrimSpec) : Prop :=
  ∃ root, root ∈ Sdf.rootPrims data ∧ subspec s root.

(** ** Two layer files to run the program on *)
Module Example.

Definition ref_a : Sdf.Reference := Sdf.mkReference "a.usda" "/geo".
Definition ref_b : Sdf.Reference := Sdf.mkReference "b.usda" "/rig".
Definition ref_c : Sdf.Reference := Sdf.mkReference "c.usda" "/anim".

(** A prim with three prepended references, a prim whose reference-list
    operation has appended items only, and a prim without the operation. *)
Definition robotCharComp : Sdf.PrimSpec :=
  Sdf.mkPrimSpec "/robotCharComp"
    (Some (Sdf.mkReferenceListOp [ref_a; ref_b; ref_c] [])) [].

Definition propsGrp : Sdf.PrimSpec :=
  Sdf.mkPrimSpec "/propsGrp"
    (Some (Sdf.mkReferenceListOp [] [Sdf.mkReference "props.usda" ""])) [].

Definition camera : Sdf.PrimSpec := Sdf.mkPrimSpec "/camera" None [].

Definition shot : Sdf.LayerData :=
  Sdf.mkLayerData ["layout.usda"; "lighting.usda"]
    [robotCharComp; propsGrp; camera].

(** [/A] without references, [/A/B] with one prepended reference, [/C] with
    two. *)
Definition prim_B : Sdf.PrimSpec :=
  Sdf.mkPrimSpec "/A/B" (Some (Sdf.mkReferenceListOp [ref_a] [])) [].

Definition prim_A : Sdf.PrimSpec := Sdf.mkPrimSpec "/A" None [prim_B].

Definition prim_C : Sdf.PrimSpec :=
  Sdf.mkPrimSpec "/C" (Some (Sdf.mkReferenceListOp [ref_b; ref_c] [])) [].

Definition scene : Sdf.LayerData := Sdf.mkLayerData [] [prim_A; prim_C].

(** Both files on disk, no layer open. *)
Definition world : Sdf.World :=
  Sdf.mkWorld {[ "shot.usda" := shot; "scene.usda" := scene ]} ∅ [].

(** The editor of [/robotCharComp] in [shot.usda], constructed without the
    leading slash. *)
Definition robot_editor : UsdPrimRefEditor.t :=
  UsdPrimRefEditor.__init__ "shot.usda" "robotCharComp".

End Example.

(** ** The order of the traversal *)

(** The order in which the loop pops the specs of a subtree: the spec, then
    the subtrees of its children, the subtree of the last child first. *)
Fixpoint pop_order (spec : Sdf.PrimSpec) : list Sdf.PrimSpec :=
  match spec with
  | Sdf.mkPrimSpec _ _ children =>
      spec :: concat (rev (List.map pop_order children))
  end.

(** Document order: the spec, then the subtrees of its children from the
    first to the last. *)
Fixpoint document_order (spec : Sdf.PrimSpec) : list Sdf.PrimSpec :=
  match spec with
  | Sdf.mkPrimSpec _ _ children =>
      spec :: concat (List.map document_order children)
  end.

(** ** Writes from outside *)

(** Another process replaces the content of a file; the layers that are
    open keep what they hold. *)
Definition external_write (file : string) (data : Sdf.LayerData)
    (w : Sdf.World) : Sdf.World :=
  Sdf.mkWorld (<[file := data]> (Sdf.disk w)) (Sdf.registry w)
    (Sdf.calls w).

(** ** An open layer that is behind its file *)
Module Scenario.

(** What [shot.usda] held when the layer was opened: other sublayers, and
    [/robotCharComp] with two references. *)
Definition shot_before : Sdf.LayerData :=
  Sdf.mkLayerData ["previs.usda"]
    [Sdf.mkPrimSpec "/robotCharComp"
       (Some (Sdf.mkReferenceListOp [Example.ref_c; Example.ref_a] [])) []].

(** The files of [Example.world], with the layer of [shot.usda] open and
    still holding [shot_before]. *)
Definition stale_world : Sdf.World :=
  Sdf.mkWorld (Sdf.disk Example.world) {[ "shot.usda" := shot_before ]} [].

(** Editors that have used their layer before. *)
Definition robot_editor : UsdPrimRefEditor.t :=
  UsdPrimRefEditor.mk "shot.usda" "/robotCharComp" (Some "shot.usda").

Definition shot_editor : UsdaSublayerEditor.t :=
  UsdaSublayerEditor.mk "shot.usda" (Some "shot.usda").

(** The layer of [shot.usda] open with the content of [Example.shot], and
    its file removed from the disk since. *)
Definition orphan_world : Sdf.World :=
  Sdf.mkWorld (delete "shot.usda" (Sdf.disk Example.world))
    {[ "shot.usda" := Example.shot ]} [].

(** [/robotCharComp] with two prepended references of the same asset
    path. *)
Definition ref_a_rig : Sdf.Reference := Sdf.mkReference "a.usda" "/rig".

End Scenario.

(** * Properties *)

(** ** Running a method *)

Lemma run_bind {S A B} (m : M S A) (f : A → M S B) (s : S) :
  (m ≫= f) s =
  match m s with
  | (inl e, s') => (inl e, s')
  | (inr a, s') => f a s'
  end.
Proof. reflexivity. Qed.

Ltac run_step :=
  cbv [mbind M_bind mret M_ret raise gets modify sdf_call sdf_read sdf_write
       sdf_try];
  cbn [fst snd self sdf].

(** ** The prim tree *)

Lemma subspec_inv (s r : Sdf.PrimSpec) :
  subspec s r ↔ s = r ∨ ∃ c, c ∈ Sdf.nameChildren r ∧ subspec s c.
Proof.
  split.
  - inversion 1; subst; eauto.
  - intros [-> | (c & Hc & Hs)]; [constructor | econstructor; eauto].
Qed.

(** Induction on a prim spec, with the property known for its children. *)
Lemma PrimSpec_forest_ind (P : Sdf.PrimSpec → Prop) :
  (∀ p op children, Forall P children → P (Sdf.mkPrimSpec p op children)) →
  ∀ spec, P spec.
Proof.
  intros step. fix IH 1. intros [p op children]. apply step.
  induction children as [|child children IHc]; constructor;
    [apply IH | exact IHc].
Qed.

(** The spec found under a path has that path. *)
Lemma find_spec_path (target : string) (spec found : Sdf.PrimSpec) :
  Sdf.find_spec target spec = Some found → Sdf.path found = target.
Proof.
  revert found. induction spec as [p op children IH] using PrimSpec_forest_ind.
  intros found. simpl. destruct (String.eqb p target) eqn:E.
  - intros [= <-]. simpl. by apply String.eqb_eq.
  - induction IH as [|child children Hchild _ IHc]; [done|].
    destruct (Sdf.find_spec target child) as [s|] eqn:Ec; [|exact IHc].
    intros [= <-]. by apply Hchild.
Qed.

Lemma find_among_path (target : string) (specs : list Sdf.PrimSpec)
    (found : Sdf.PrimSpec) :
  Sdf.find_among target specs = Some found → Sdf.path found = target.
Proof.
  induction specs as [|spec specs IH]; simpl; [done|].
  destruct (Sdf.find_spec target spec) as [s|] eqn:E; [|exact IH].
  intros [= <-]. by apply (find_spec_path target spec).
Qed.

(** The spec found under a path is a prim of the layer. *)
Lemma find_spec_subspec (target : string) (spec found : Sdf.PrimSpec) :
  Sdf.find_spec target spec = Some found → subspec found spec.
Proof.
  revert found. induction spec as [p op children IH] using PrimSpec_forest_ind.
  intros found. simpl. destruct (String.eqb p target).
  - intros [= <-]. constructor.
  - intros H.
    assert (∃ child, child ∈ children ∧ subspec found child)
      as (child & Hin & Hsub).
    { induction IH as [|child children Hchild _ IHc]; [done|].
      destruct (Sdf.find_spec target child) as [s|] eqn:Ec.
      - injection H as <-. exists child. split; [left | by apply Hchild].
      - destruct (IHc H) as (c & Hc & Hs). exists c. split; [by right|done]. }
    by apply (subspec_child found child).
Qed.

Lemma find_among_in_layer (target : string) (data : Sdf.LayerData)
    (found : Sdf.PrimSpec) :
  Sdf.find_among target (Sdf.rootPrims data) = Some found →
  spec_in_layer data found.
Proof.
  unfold spec_in_layer. induction (Sdf.rootPrims data) as [|spec specs IH];
    simpl; [done|].
  destruct (Sdf.find_spec target spec) as [s|] eqn:E.
  - intros [= <-]. exists spec. split; [left|].
    by apply (find_spec_subspec target).
  - intros H. destruct (IH H) as (root & Hin & Hsub).
    exists root. split; [by right | done].
Qed.

(** Looking a path up after an assignment under that path finds the spec
    that was there, with its prepended items assigned. *)
Lemma find_spec_assign (target : string) (items : list Sdf.Reference)
    (spec : Sdf.PrimSpec) :
  Sdf.find_spec target (Sdf.assign_spec target items spec) =
  Sdf.assign_spec target items <$> Sdf.find_spec target spec.
Proof.
  induction spec as [p op children IH] using PrimSpec_forest_ind.
  simpl. destruct (String.eqb p target) eqn:E; simpl; [by rewrite E|].
  induction IH as [|child children Hchild _ IHc]; [done|].
  simpl. rewrite Hchild.
  destruct (Sdf.find_spec target child) as [s|]; [done | exact IHc].
Qed.

Lemma find_among_assign (target : string) (items : list Sdf.Reference)
    (specs : list Sdf.PrimSpec) :
  Sdf.find_among target (List.map (Sdf.assign_spec target items) specs) =
  Sdf.assign_spec target items <$> Sdf.find_among target specs.
Proof.
  induction specs as [|spec specs IH]; simpl; [done|].
  rewrite find_spec_assign.
  destruct (Sdf.find_spec target spec) as [s|]; [done | exact IH].
Qed.

(** A prim of the tree is the spec at its path. *)
Lemma prim_at_found (data : Sdf.LayerData) (prim_path : string)
    (spec : Sdf.PrimSpec) :
  Sdf.find_among prim_path (Sdf.rootPrims data) = Some spec →
  Sdf.prim_at data prim_path = Some spec.
Proof. intros H. unfold Sdf.prim_at. by rewrite H. Qed.

(** Away from "/", the spec at a path is a prim of the tree. *)
Lemma prim_at_missing (data : Sdf.LayerData) (prim_path : string) :
  Sdf.find_among prim_path (Sdf.rootPrims data) = None →
  prim_path ≠ "/" →
  Sdf.prim_at data prim_path = None.
Proof.
  intros H Hne. unfold Sdf.prim_at. rewrite H.
  destruct (String.eqb prim_path "/") eqn:E; [|done].
  by apply String.eqb_eq in E.
Qed.

Lemma prim_at_path (data : Sdf.LayerData) (prim_path : string)
    (spec : Sdf.PrimSpec) :
  Sdf.prim_at data prim_path = Some spec → Sdf.path spec = prim_path.
Proof.
  unfold Sdf.prim_at.
  destruct (Sdf.find_among prim_path (Sdf.rootPrims data)) as [s|] eqn:E.
  - intros [= <-]. by apply (find_among_path _ (Sdf.rootPrims data)).
  - destruct (String.eqb prim_path "/") eqn:E'; [|done].
    intros [= <-]. simpl. symmetry. by apply String.eqb_eq.
Qed.

(** The spec at a path after an assignment under that path: the
    reference-list operation that was there, with its prepended items
    assigned. *)
Lemma prim_at_assign (data : Sdf.LayerData) (prim_path : string)
    (spec : Sdf.PrimSpec) (items : list Sdf.Reference) :
  Sdf.prim_at data prim_path = Some spec →
  ∃ spec',
    Sdf.prim_at (Sdf.assign_data prim_path items data) prim_path =
      Some spec' ∧
    Sdf.referenceList spec' =
      Sdf.assign_prepended items (Sdf.referenceList spec).
Proof.
  unfold Sdf.prim_at, Sdf.assign_data. simpl. rewrite find_among_assign.
  destruct (Sdf.find_among prim_path (Sdf.rootPrims data)) as [s|] eqn:E;
    simpl.
  - intros [= <-]. eexists. split; [done|].
    pose proof (find_among_path _ _ _ E) as Hp.
    destruct s as [p o children]. simpl in *. subst p.
    by rewrite String.eqb_refl.
  - destruct (String.eqb prim_path "/"); [|done].
    intros [= <-]. eexists. split; done.
Qed.

(** Reading back through the library what was assigned through a handle,
    with no reload in between: the prepended items are the assigned ones. *)
Lemma set_prependedItems_read (layer : Sdf.Layer) (w : Sdf.World)
    (data : Sdf.LayerData) (prim_path : string) (spec : Sdf.PrimSpec)
    (op : Sdf.ReferenceListOp) (items : list Sdf.Reference) :
  Sdf.registry w !! layer = Some data →
  Sdf.find_among prim_path (Sdf.rootPrims data) = Some spec →
  Sdf.referenceList spec = Some op →
  ∃ spec',
    Sdf.GetPrimAtPath layer prim_path
      (Sdf.set_prependedItems (Sdf.mkHandle layer spec) items w) =
      Some (Sdf.mkHandle layer spec') ∧
    Sdf.referenceList spec' =
      Some (Sdf.mkReferenceListOp items (Sdf.appendedItems op)).
Proof.
  intros Hr Hs Hop.
  pose proof (find_among_path _ _ _ Hs) as Hpath.
  destruct (prim_at_assign data prim_path spec items (prim_at_found _ _ _ Hs))
    as (spec' & Hat & Href).
  exists spec'. split.
  - unfold Sdf.GetPrimAtPath, Sdf.set_prependedItems. simpl.
    rewrite Hr. simpl. rewrite lookup_insert_eq. simpl.
    by rewrite Hpath, Hat.
  - by rewrite Href, Hop.
Qed.

(** ** The dictionary of the current references *)
Section ByAsset.
Import UsdPrimRefEditor.

Lemma fold_insert_None (refs : list Sdf.Reference)
    (d : gmap string Sdf.Reference) (p : string) :
  fold_left (λ d ref, <[Sdf.assetPath ref := ref]> d) refs d !! p = None ↔
  d !! p = None ∧ p ∉ List.map Sdf.assetPath refs.
Proof.
  revert d. induction refs as [|r refs IH]; intros d; simpl.
  - split; [intros H; split; [done | apply not_elem_of_nil] | tauto].
  - rewrite IH, not_elem_of_cons.
    destruct (decide (Sdf.assetPath r = p)) as [<- | Hne].
    + rewrite lookup_insert_eq. split; [intros [? _]; done | tauto].
    + rewrite lookup_insert_ne by done. split; intros; intuition congruence.
Qed.

Lemma fold_insert_Some (refs : list Sdf.Reference)
    (d : gmap string Sdf.Reference) (p : string) (r : Sdf.Reference) :
  fold_left (λ d ref, <[Sdf.assetPath ref := ref]> d) refs d !! p = Some r →
  d !! p = Some r ∨ (r ∈ refs ∧ Sdf.assetPath r = p).
Proof.
  revert d. induction refs as [|x refs IH]; intros d; simpl; [tauto|].
  intros H. apply IH in H as [H | [H1 H2]].
  - destruct (decide (Sdf.assetPath x = p)) as [<- | Hne].
    + rewrite lookup_insert_eq in H. injection H as <-.
      right. split; [left | done].
    + rewrite lookup_insert_ne in H by done. tauto.
  - right. split; [by right | done].
Qed.

(** A key is missing from the dictionary exactly when it is not an asset
    path of a current reference. *)
Lemma by_asset_of_None (refs : list Sdf.Reference) (p : string) :
  by_asset_of refs !! p = None ↔ p ∉ List.map Sdf.assetPath refs.
Proof.
  unfold by_asset_of. rewrite fold_insert_None, lookup_empty. tauto.
Qed.

(** The entry found under a key is a current reference with that asset
    path. *)
Lemma by_asset_of_Some (refs : list Sdf.Reference) (p : string)
    (r : Sdf.Reference) :
  by_asset_of refs !! p = Some r → r ∈ refs ∧ Sdf.assetPath r = p.
Proof.
  unfold by_asset_of. intros H.
  apply fold_insert_Some in H as [H | H]; [|done].
  by rewrite lookup_empty in H.
Qed.

(** All keys present: the comprehension returns a list. *)
Lemma lookup_each_known (refs : list Sdf.Reference)
    (new_order : list string) :
  Forall (λ p, p ∈ List.map Sdf.assetPath refs) new_order →
  ∃ reordered,
    lookup_each (by_asset_of refs) new_order = inr reordered ∧
    List.map Sdf.assetPath reordered = new_order.
Proof.
  induction 1 as [|p rest Hp _ (reordered & IH1 & IH2)]; simpl.
  - by exists [].
  - destruct (by_asset_of refs !! p) as [r|] eqn:E.
    + rewrite IH1. exists (r :: reordered). split; [done|].
      simpl. apply by_asset_of_Some in E as [_ ->]. by rewrite IH2.
    + apply by_asset_of_None in E. done.
Qed.

(** A key absent: the comprehension raises [KeyError] with the first such
    key. *)
Lemma lookup_each_unknown (refs : list Sdf.Reference)
    (known : list string) (missing : string) (rest : list string) :
  Forall (λ p, p ∈ List.map Sdf.assetPath refs) known →
  missing ∉ List.map Sdf.assetPath refs →
  lookup_each (by_asset_of refs) (known ++ missing :: rest) = inl missing.
Proof.
  intros Hknown Hmissing.
  induction Hknown as [|p l Hp _ IH]; simpl.
  - apply by_asset_of_None in Hmissing. by rewrite Hmissing.
  - destruct (by_asset_of refs !! p) as [r|] eqn:E.
    + by rewrite IH.
    + apply by_asset_of_None in E. done.
Qed.

Lemma lookup_each_inl (refs : list Sdf.Reference) (new_order : list string)
    (missing : string) :
  lookup_each (by_asset_of refs) new_order = inl missing →
  missing ∈ new_order ∧ missing ∉ List.map Sdf.assetPath refs.
Proof.
  induction new_order as [|p rest IH]; simpl; [done|].
  destruct (by_asset_of refs !! p) as [r|] eqn:E.
  - destruct (lookup_each (by_asset_of refs) rest) as [m|l]; [|done].
    intros [= ->]. destruct IH as [? ?]; [done|]. split; [by right | done].
  - intros [= ->]. apply by_asset_of_None in E. split; [left | done].
Qed.

(** The list that the comprehension returns has the asset paths of
    [new_order], in that order, and holds current references only. *)
Lemma lookup_each_inr (refs : list Sdf.Reference) (new_order : list string)
    (reordered : list Sdf.Reference) :
  lookup_each (by_asset_of refs) new_order = inr reordered →
  List.map Sdf.assetPath reordered = new_order ∧
  Forall (λ r, r ∈ refs) reordered.
Proof.
  revert reordered. induction new_order as [|p rest IH]; simpl.
  - intros reordered [= <-]. by split.
  - intros reordered. destruct (by_asset_of refs !! p) as [r|] eqn:E; [|done].
    destruct (lookup_each (by_asset_of refs) rest) as [m|l]; [done|].
    intros [= <-]. destruct (IH l eq_refl) as [IH1 IH2].
    apply by_asset_of_Some in E as [Hin Hp]. simpl. rewrite Hp, IH1.
    split; [done | by constructor].
Qed.

End ByAsset.

(** ** The prim-reference editor, step by step *)
Section PrimRefEditorSteps.
Import UsdPrimRefEditor.

Lemma cache_ok_init (f p : string) : cache_ok (__init__ f p).
Proof. by left. Qed.

Lemma cache_ok_reloaded (e : t) (w : Sdf.World) (data : Sdf.LayerData) :
  cache_ok (self (reloaded e w data)).
Proof. by right. Qed.

Lemma disk_reloaded (e : t) (w : Sdf.World) (data : Sdf.LayerData) :
  Sdf.disk (sdf (reloaded e w data)) = Sdf.disk w.
Proof. reflexivity. Qed.

Lemma current_disk (layer : Sdf.Layer) (w : Sdf.World)
    (data : Sdf.LayerData) :
  Sdf.disk w !! layer = Some data → Sdf.current layer w = Some data.
Proof. intros H. unfold Sdf.current. by rewrite H. Qed.

(** [_get_layer] on a layer that can be had: the layer is cached, reloaded,
    and holds its current content. *)
Lemma _get_layer_opens (e : t) (w : Sdf.World) (data : Sdf.LayerData) :
  cache_ok e →
  Sdf.current (usda_path e) w = Some data →
  _get_layer (mkEnv e w) = (inr (usda_path e), reloaded e w data).
Proof.
  intros Hc Hd. destruct e as [f p l]. simpl in *.
  unfold Sdf.current in Hd.
  unfold _get_layer, reloaded. run_step.
  destruct Hc as [Hc | Hc]; simpl in Hc; subst l; simpl.
  - unfold Sdf.FindOrOpen.
    destruct (Sdf.registry w !! f) as [d|] eqn:Hr; simpl.
    + unfold Sdf.Reload. simpl.
      destruct (Sdf.disk w !! f) as [d'|]; injection Hd as ->; [done|].
      by rewrite (insert_id _ _ _ Hr).
    + destruct (Sdf.disk w !! f) as [d'|] eqn:Hd'; [|done].
      injection Hd as ->. unfold Sdf.Reload. simpl. rewrite Hd'.
      by rewrite insert_insert_eq.
  - unfold Sdf.Reload. simpl.
    destruct (Sdf.disk w !! f) as [d'|]; [by injection Hd as ->|].
    by rewrite (insert_id _ _ _ Hd).
Qed.

Lemma _get_layer_reloads (e : t) (w : Sdf.World) (data : Sdf.LayerData) :
  cache_ok e →
  Sdf.disk w !! usda_path e = Some data →
  _get_layer (mkEnv e w) = (inr (usda_path e), reloaded e w data).
Proof. intros Hc Hd. by apply _get_layer_opens, current_disk. Qed.

Lemma _get_prim_spec_at (e : t) (w : Sdf.World) (data : Sdf.LayerData)
    (spec : Sdf.PrimSpec) :
  cache_ok e →
  Sdf.current (usda_path e) w = Some data →
  Sdf.prim_at data (prim_path e) = Some spec →
  _get_prim_spec (mkEnv e w) =
    (inr (Sdf.mkHandle (usda_path e) spec), reloaded e w data).
Proof.
  intros Hc Hd Hs. unfold _get_prim_spec.
  rewrite run_bind, (_get_layer_opens e w data Hc Hd).
  run_step. unfold Sdf.GetPrimAtPath, reloaded. simpl.
  rewrite lookup_insert_eq. simpl. by rewrite Hs.
Qed.

Lemma _get_prim_spec_none (e : t) (w : Sdf.World) (data : Sdf.LayerData) :
  cache_ok e →
  Sdf.current (usda_path e) w = Some data →
  Sdf.prim_at data (prim_path e) = None →
  _get_prim_spec (mkEnv e w) =
    (inl (PrimNotFoundError (prim_path e)), reloaded e w data).
Proof.
  intros Hc Hd Hs. unfold _get_prim_spec.
  rewrite run_bind, (_get_layer_opens e w data Hc Hd).
  run_step. unfold Sdf.GetPrimAtPath, reloaded. simpl.
  rewrite lookup_insert_eq. simpl. by rewrite Hs.
Qed.

Lemma _get_prim_spec_found (e : t) (w : Sdf.World) (data : Sdf.LayerData)
    (spec : Sdf.PrimSpec) :
  cache_ok e →
  Sdf.disk w !! usda_path e = Some data →
  Sdf.find_among (prim_path e) (Sdf.rootPrims data) = Some spec →
  _get_prim_spec (mkEnv e w) =
    (inr (Sdf.mkHandle (usda_path e) spec), reloaded e w data).
Proof.
  intros Hc Hd Hs.
  by apply _get_prim_spec_at; [|apply current_disk|apply prim_at_found].
Qed.

Lemma _get_prim_spec_missing (e : t) (w : Sdf.World) (data : Sdf.LayerData) :
  cache_ok e →
  Sdf.disk w !! usda_path e = Some data →
  Sdf.find_among (prim_path e) (Sdf.rootPrims data) = None →
  prim_path e ≠ "/" →
  _get_prim_spec (mkEnv e w) =
    (inl (PrimNotFoundError (prim_path e)), reloaded e w data).
Proof.
  intros Hc Hd Hs Hne.
  by apply _get_prim_spec_none; [|apply current_disk|apply prim_at_missing].
Qed.

(** What [load_primrefs] returns is read off the current content of the
    layer. *)
Lemma load_primrefs_at (e : t) (w : Sdf.World) (data : Sdf.LayerData)
    (spec : Sdf.PrimSpec) :
  cache_ok e →
  Sdf.current (usda_path e) w = Some data →
  Sdf.prim_at data (prim_path e) = Some spec →
  load_primrefs (mkEnv e w) =
    (inr (match Sdf.referenceList spec with
          | None => []
          | Some op => List.map Sdf.assetPath (Sdf.prependedItems op)
          end),
     reloaded e w data).
Proof.
  intros Hc Hd Hs. unfold load_primrefs.
  rewrite run_bind, (_get_prim_spec_at e w data spec Hc Hd Hs). simpl.
  unfold Sdf.get_referenceList. by destruct (Sdf.referenceList spec).
Qed.

(** What [load_primrefs] returns is read off the file. *)
Lemma load_primrefs_found (e : t) (w : Sdf.World) (data : Sdf.LayerData)
    (spec : Sdf.PrimSpec) :
  cache_ok e →
  Sdf.disk w !! usda_path e = Some data →
  Sdf.find_among (prim_path e) (Sdf.rootPrims data) = Some spec →
  load_primrefs (mkEnv e w) =
    (inr (match Sdf.referenceList spec with
          | None => []
          | Some op => List.map Sdf.assetPath (Sdf.prependedItems op)
          end),
     reloaded e w data).
Proof.
  intros Hc Hd Hs.
  by apply load_primrefs_at; [|apply current_disk|apply prim_at_found].
Qed.

(** The outcome of [load_primrefs] depends on the current content of the
    layer and on the prim path only. *)
Lemma load_primrefs_current (e : t) (w : Sdf.World) (data : Sdf.LayerData) :
  cache_ok e →
  Sdf.current (usda_path e) w = Some data →
  fst (load_primrefs (mkEnv e w)) =
    match Sdf.prim_at data (prim_path e) with
    | None => inl (PrimNotFoundError (prim_path e))
    | Some spec =>
        inr (match Sdf.referenceList spec with
             | None => []
             | Some op => List.map Sdf.assetPath (Sdf.prependedItems op)
             end)
    end.
Proof.
  intros Hc Hd.
  destruct (Sdf.prim_at data (prim_path e)) as [spec|] eqn:Hs.
  - by rewrite (load_primrefs_at e w data spec Hc Hd Hs).
  - unfold load_primrefs.
    by rewrite run_bind, (_get_prim_spec_none e w data Hc Hd Hs).
Qed.

(** Right after the assignment of [save_primrefs], and before its second
    [_get_layer], the in-memory layer does hold the new order: reading the
    prim there gives the asset paths of [new_order]. *)
Lemma assignment_visible_before_reload (e : t) (w : Sdf.World)
    (data : Sdf.LayerData) (spec : Sdf.PrimSpec) (op : Sdf.ReferenceListOp)
    (new_order : list string) (reordered_refs : list Sdf.Reference) :
  Sdf.find_among (prim_path e) (Sdf.rootPrims data) = Some spec →
  Sdf.referenceList spec = Some op →
  lookup_each (by_asset_of (Sdf.prependedItems op)) new_order =
    inr reordered_refs →
  ∃ spec' op',
    Sdf.GetPrimAtPath (usda_path e) (prim_path e)
      (Sdf.set_prependedItems (Sdf.mkHandle (usda_path e) spec)
         reordered_refs (sdf (reloaded e w data))) =
      Some (Sdf.mkHandle (usda_path e) spec') ∧
    Sdf.referenceList spec' = Some op' ∧
    List.map Sdf.assetPath (Sdf.prependedItems op') = new_order.
Proof.
  intros Hs Hop Hl.
  destruct (set_prependedItems_read (usda_path e) (sdf (reloaded e w data))
              data (prim_path e) spec op reordered_refs)
    as (spec' & Hget & Hop'); [apply lookup_insert_eq | done | done |].
  exists spec', (Sdf.mkReferenceListOp reordered_refs (Sdf.appendedItems op)).
  split_and!; [done | done |]. simpl.
  by apply (lookup_each_inr (Sdf.prependedItems op)).
Qed.

(** The writing tail of [save_primrefs]: the assignment to [prependedItems],
    then [_get_layer], which reloads the layer, then [Save].  With a file on
    disk the reload undoes the assignment, and the file gets back its own
    content. *)
Lemma save_tail (e : t) (w : Sdf.World) (data : Sdf.LayerData)
    (spec : Sdf.PrimSpec) (reordered_refs : list Sdf.Reference) :
  Sdf.current (usda_path e) w = Some data →
  (sdf_write
     (Sdf.set_prependedItems (Sdf.mkHandle (usda_path e) spec)
        reordered_refs);;
   layer ← _get_layer;
   sdf_write (Sdf.Save layer)) (reloaded e w data) =
  (inr tt, saved e w data spec reordered_refs).
Proof.
  intros Hd. unfold Sdf.current in Hd. unfold _get_layer. run_step.
  unfold Sdf.set_prependedItems, Sdf.Reload, Sdf.Save, saved. simpl.
  rewrite lookup_insert_eq. rewrite insert_insert_eq.
  destruct (Sdf.disk w !! usda_path e) as [d|] eqn:Hdisk.
  - injection Hd as ->. rewrite insert_insert_eq, lookup_insert_eq.
    by rewrite <- !app_assoc.
  - rewrite lookup_insert_eq. by rewrite <- !app_assoc.
Qed.

(** [save_primrefs] on a prim that the layer has: the outcome, and the
    state that the call leaves. *)
Lemma save_primrefs_at (e : t) (w : Sdf.World) (data : Sdf.LayerData)
    (spec : Sdf.PrimSpec) (new_order : list string) :
  cache_ok e →
  Sdf.current (usda_path e) w = Some data →
  Sdf.prim_at data (prim_path e) = Some spec →
  save_primrefs new_order (mkEnv e w) =
    let original_refs :=
      match Sdf.referenceList spec with
      | Some op => Sdf.prependedItems op
      | None => []
      end in
    if negb (truthy original_refs) && truthy new_order
    then (inl NoPrependedReferencesError, reloaded e w data)
    else match lookup_each (by_asset_of original_refs) new_order with
         | inl missing =>
             (inl (UnknownReferenceError missing), reloaded e w data)
         | inr reordered_refs =>
             (inr tt, saved e w data spec reordered_refs)
         end.
Proof.
  intros Hc Hd Hs. unfold save_primrefs.
  rewrite run_bind, (_get_prim_spec_at e w data spec Hc Hd Hs).
  cbn [Sdf.handle_spec]. unfold Sdf.get_referenceList.
  set (original_refs := match Sdf.referenceList spec with
                        | Some op => Sdf.prependedItems op
                        | None => []
                        end).
  assert (Heq : Sdf.prependedItems
                  match Sdf.referenceList spec with
                  | Some op => op
                  | None => Sdf.mkReferenceListOp [] []
                  end = original_refs).
  { unfold original_refs. by destruct (Sdf.referenceList spec). }
  cbv zeta. rewrite Heq.
  destruct (negb (truthy original_refs) && truthy new_order); [done|].
  destruct (lookup_each _ new_order) as [missing | reordered]; [done|].
  by apply save_tail.
Qed.

(** The same on a prim of the tree that carries a reference-list operation,
    with a file on disk. *)
Lemma save_primrefs_found (e : t) (w : Sdf.World) (data : Sdf.LayerData)
    (spec : Sdf.PrimSpec) (op : Sdf.ReferenceListOp)
    (new_order : list string) :
  cache_ok e →
  Sdf.disk w !! usda_path e = Some data →
  Sdf.find_among (prim_path e) (Sdf.rootPrims data) = Some spec →
  Sdf.referenceList spec = Some op →
  save_primrefs new_order (mkEnv e w) =
    if negb (truthy (Sdf.prependedItems op)) && truthy new_order
    then (inl NoPrependedReferencesError, reloaded e w data)
    else match lookup_each (by_asset_of (Sdf.prependedItems op)) new_order
         with
         | inl missing =>
             (inl (UnknownReferenceError missing), reloaded e w data)
         | inr reordered_refs =>
             (inr tt, saved e w data spec reordered_refs)
         end.
Proof.
  intros Hc Hd Hs Hop.
  rewrite (save_primrefs_at e w data spec new_order Hc
             (current_disk _ _ _ Hd) (prim_at_found _ _ _ Hs)).
  by rewrite Hop.
Qed.

(** With a file on disk, the state after a [save_primrefs] that got as far
    as [Save] has the files as they were, and the layer holds the content of
    its file. *)
Lemma saved_on_disk (e : t) (w : Sdf.World) (data : Sdf.LayerData)
    (spec : Sdf.PrimSpec) (items : list Sdf.Reference) :
  Sdf.disk w !! usda_path e = Some data →
  Sdf.disk (sdf (saved e w data spec items)) = Sdf.disk w ∧
  Sdf.registry (sdf (saved e w data spec items)) =
    <[usda_path e := data]> (Sdf.registry w).
Proof.
  intros Hd. unfold saved. simpl. rewrite Hd.
  by rewrite (insert_id _ _ _ Hd).
Qed.

(** Whatever the outcome of [save_primrefs], with a file on disk the files
    are as they were and the layer holds the content of its file. *)
Lemma save_primrefs_state (e : t) (w : Sdf.World) (data : Sdf.LayerData)
    (new_order : list string) :
  cache_ok e →
  Sdf.disk w !! usda_path e = Some data →
  Sdf.disk (sdf (snd (save_primrefs new_order (mkEnv e w)))) = Sdf.disk w ∧
  Sdf.registry (sdf (snd (save_primrefs new_order (mkEnv e w)))) =
    <[usda_path e := data]> (Sdf.registry w).
Proof.
  intros Hc Hd. pose proof (current_disk _ _ _ Hd) as Hcur.
  destruct (Sdf.prim_at data (prim_path e)) as [spec|] eqn:Hs.
  - rewrite (save_primrefs_at e w data spec new_order Hc Hcur Hs).
    cbv zeta.
    destruct (negb (truthy _) && truthy new_order); [done|].
    destruct (lookup_each _ new_order) as [missing | reordered]; [done|].
    by apply saved_on_disk.
  - unfold save_primrefs.
    by rewrite run_bind, (_get_prim_spec_none e w data Hc Hcur Hs).
Qed.

(** A [load_primrefs] after a call that left the editor in the reloaded
    state reads the file, as the one before did. *)
Lemma load_primrefs_reloaded (e : t) (w : Sdf.World) (data : Sdf.LayerData) :
  cache_ok e →
  Sdf.disk w !! usda_path e = Some data →
  fst (load_primrefs (reloaded e w data)) = fst (load_primrefs (mkEnv e w)).
Proof.
  intros Hc Hd.
  rewrite (load_primrefs_current e w data Hc (current_disk _ _ _ Hd)).
  change (reloaded e w data)
    with (mkEnv (self (reloaded e w data)) (sdf (reloaded e w data))).
  by rewrite (load_primrefs_current (self (reloaded e w data))
                (sdf (reloaded e w data)) data (cache_ok_reloaded e w data)
                (current_disk _ (sdf (reloaded e w data)) _ Hd)).
Qed.

(** And so does a [load_primrefs] after a [save_primrefs] that got as far
    as [Save]. *)
Lemma load_primrefs_saved (e : t) (w : Sdf.World) (data : Sdf.LayerData)
    (spec : Sdf.PrimSpec) (items : list Sdf.Reference) :
  cache_ok e →
  Sdf.disk w !! usda_path e = Some data →
  fst (load_primrefs (saved e w data spec items)) =
  fst (load_primrefs (mkEnv e w)).
Proof.
  intros Hc Hd.
  rewrite (load_primrefs_current e w data Hc (current_disk _ _ _ Hd)).
  change (saved e w data spec items)
    with (mkEnv (self (saved e w data spec items))
            (sdf (saved e w data spec items))).
  rewrite (load_primrefs_current (self (saved e w data spec items))
             (sdf (saved e w data spec items)) data); [done | by right |].
  apply current_disk.
  rewrite (proj1 (saved_on_disk e w data spec items Hd)). exact Hd.
Qed.

(** A successful [save_primrefs] followed by [load_primrefs]: when every
    path of [new_order] is the asset path of a current reference, the call
    succeeds, and the next [load_primrefs] returns the order that the file
    had before the call. *)
Lemma save_primrefs_then_load (e : t) (w : Sdf.World) (data : Sdf.LayerData)
    (spec : Sdf.PrimSpec) (op : Sdf.ReferenceListOp)
    (new_order : list string) :
  cache_ok e →
  Sdf.disk w !! usda_path e = Some data →
  Sdf.find_among (prim_path e) (Sdf.rootPrims data) = Some spec →
  Sdf.referenceList spec = Some op →
  Sdf.prependedItems op ≠ [] →
  Forall (λ p, p ∈ List.map Sdf.assetPath (Sdf.prependedItems op)) new_order →
  ∃ s1,
    save_primrefs new_order (mkEnv e w) = (inr tt, s1) ∧
    Sdf.disk (sdf s1) = Sdf.disk w ∧
    fst (load_primrefs s1) =
      inr (List.map Sdf.assetPath (Sdf.prependedItems op)).
Proof.
  intros Hc Hd Hs Hop Hne Hall.
  rewrite (save_primrefs_found e w data spec op new_order Hc Hd Hs Hop).
  destruct (Sdf.prependedItems op) as [|r refs] eqn:Hp; [done|]. simpl.
  destruct (lookup_each_known (r :: refs) new_order Hall) as (l & -> & _).
  exists (saved e w data spec l).
  split; [done|]. split; [by apply saved_on_disk|].
  rewrite (load_primrefs_saved e w data spec l Hc Hd).
  rewrite (load_primrefs_found e w data spec Hc Hd Hs). simpl.
  by rewrite Hop, Hp.
Qed.

(** Each method keeps the cache invariant, and the file and prim path of
    the editor, whatever the outcome. *)
Lemma _get_layer_same_editor (e : t) (w : Sdf.World) :
  cache_ok e → same_editor e (self (snd (_get_layer (mkEnv e w)))).
Proof.
  intros Hc. destruct e as [f p l]. unfold same_editor, cache_ok in *.
  unfold _get_layer. run_step. simpl in *.
  destruct l as [l|]; simpl; [tauto|].
  unfold Sdf.FindOrOpen.
  destruct (Sdf.registry w !! f); simpl; [tauto|].
  destruct (Sdf.disk w !! f); simpl; tauto.
Qed.

Lemma _get_prim_spec_same_editor (e : t) (w : Sdf.World) :
  cache_ok e → same_editor e (self (snd (_get_prim_spec (mkEnv e w)))).
Proof.
  intros Hc. pose proof (_get_layer_same_editor e w Hc) as H.
  unfold _get_prim_spec. rewrite run_bind.
  destruct (_get_layer (mkEnv e w)) as [[err | layer] [e' w']];
    simpl in *; [done|].
  run_step. by destruct (Sdf.GetPrimAtPath layer (prim_path e') w').
Qed.

Lemma load_primrefs_same_editor (e : t) (w : Sdf.World) :
  cache_ok e → same_editor e (self (snd (load_primrefs (mkEnv e w)))).
Proof.
  intros Hc. pose proof (_get_prim_spec_same_editor e w Hc) as H.
  unfold load_primrefs. rewrite run_bind.
  destruct (_get_prim_spec (mkEnv e w)) as [[err | h] [e' w']];
    simpl in *; [done|].
  by destruct (Sdf.referenceList (Sdf.handle_spec h)).
Qed.

Lemma save_primrefs_same_editor (e : t) (w : Sdf.World)
    (new_order : list string) :
  cache_ok e →
  same_editor e (self (snd (save_primrefs new_order (mkEnv e w)))).
Proof.
  intros Hc. pose proof (_get_prim_spec_same_editor e w Hc) as H.
  unfold save_primrefs. rewrite run_bind.
  destruct (_get_prim_spec (mkEnv e w)) as [[err | h] [e' w']];
    simpl in *; [done|].
  destruct (negb (truthy _) && truthy new_order); [done|].
  destruct (lookup_each _ new_order) as [missing | reordered]; [done|].
  run_step. destruct H as (Hf & Hp & Hc').
  pose proof (_get_layer_same_editor e'
                (Sdf.set_prependedItems h reordered w') Hc') as H'.
  destruct (_get_layer _) as [[err | layer] [e'' w'']]; simpl in *.
  - unfold same_editor in *. intuition congruence.
  - unfold same_editor in *. intuition congruence.
Qed.

End PrimRefEditorSteps.

(** ** The prim-reference editor: the stated properties *)
Section PrimRefEditorClaims.
Import UsdPrimRefEditor.

(** A path of [new_order] that is no current asset path: there is a first
    one. *)
Lemma first_unknown (paths new_order : list string) :
  (∃ p, p ∈ new_order ∧ p ∉ paths) →
  ∃ (known : list string) (missing : string) (rest : list string),
    new_order = (known ++ missing :: rest)%list ∧
    Forall (λ p, p ∈ paths) known ∧ missing ∉ paths.
Proof.
  induction new_order as [|q l IH]; intros (p & Hin & Hout).
  - by apply elem_of_nil in Hin.
  - destruct (decide (q ∈ paths)) as [Hq | Hq].
    + apply elem_of_cons in Hin as [-> | Hin]; [done|].
      destruct IH as (known & missing & rest & -> & Hk & Hm); [eauto|].
      exists (q :: known), missing, rest. by repeat split; [constructor|].
    + exists [], q, l. by repeat split.
Qed.

(** C1 (as the code runs): on a prim whose prepended references have the
    pairwise distinct asset paths [a, b, c], [save_primrefs([c, a, b])]
    returns without error, and the following [load_primrefs()] returns
    [a, b, c], the order before the call, and not [c, a, b]; the file is
    as before.  The layer is reloaded from the file between the assignment
    of the new list and [Save]. *)
Theorem save_primrefs_permutation_reverts (e : t) (w : Sdf.World)
    (data : Sdf.LayerData) (spec : Sdf.PrimSpec)
    (a b c : Sdf.Reference) (appended : list Sdf.Reference) :
  cache_ok e →
  Sdf.disk w !! usda_path e = Some data →
  Sdf.find_among (prim_path e) (Sdf.rootPrims data) = Some spec →
  Sdf.referenceList spec = Some (Sdf.mkReferenceListOp [a; b; c] appended) →
  NoDup [Sdf.assetPath a; Sdf.assetPath b; Sdf.assetPath c] →
  ∃ s1,
    save_primrefs [Sdf.assetPath c; Sdf.assetPath a; Sdf.assetPath b]
      (mkEnv e w) = (inr tt, s1) ∧
    Sdf.disk (sdf s1) = Sdf.disk w ∧
    fst (load_primrefs s1) =
      inr [Sdf.assetPath a; Sdf.assetPath b; Sdf.assetPath c] ∧
    [Sdf.assetPath a; Sdf.assetPath b; Sdf.assetPath c] ≠
      [Sdf.assetPath c; Sdf.assetPath a; Sdf.assetPath b].
Proof.
  intros Hc Hd Hs Hop Hnd.
  destruct (save_primrefs_then_load e w data spec _
              [Sdf.assetPath c; Sdf.assetPath a; Sdf.assetPath b]
              Hc Hd Hs Hop) as (s1 & H1 & H3 & H2); [done | |].
  - simpl. repeat constructor; set_solver.
  - exists s1. split_and!; [done | done | done |].
    intros [= Hac _ _]. apply NoDup_cons in Hnd as [Hnd _].
    apply Hnd. rewrite Hac. set_solver.
Qed.

(** C2 (amended): on a prim whose prepended list is not empty, when some
    path of [new_order] is not the asset path of a current prepended
    reference, [save_primrefs(new_order)] raises [UnknownReferenceError] with
    the first such path of [new_order]; the file is not modified, the
    in-memory layer holds the content of the file, and the following
    [load_primrefs()] returns the original order. *)
Theorem save_primrefs_unknown_path (e : t) (w : Sdf.World)
    (data : Sdf.LayerData) (spec : Sdf.PrimSpec) (op : Sdf.ReferenceListOp)
    (new_order : list string) :
  cache_ok e →
  Sdf.disk w !! usda_path e = Some data →
  Sdf.find_among (prim_path e) (Sdf.rootPrims data) = Some spec →
  Sdf.referenceList spec = Some op →
  Sdf.prependedItems op ≠ [] →
  (∃ p, p ∈ new_order ∧
        p ∉ List.map Sdf.assetPath (Sdf.prependedItems op)) →
  ∃ (known : list string) (missing : string) (rest : list string) s1,
    new_order = (known ++ missing :: rest)%list ∧
    Forall (λ p, p ∈ List.map Sdf.assetPath (Sdf.prependedItems op)) known ∧
    (missing ∉ List.map Sdf.assetPath (Sdf.prependedItems op)) ∧
    save_primrefs new_order (mkEnv e w) =
      (inl (UnknownReferenceError missing), s1) ∧
    Sdf.disk (sdf s1) = Sdf.disk w ∧
    Sdf.registry (sdf s1) !! usda_path e = Some data ∧
    fst (load_primrefs s1) =
      inr (List.map Sdf.assetPath (Sdf.prependedItems op)).
Proof.
  intros Hc Hd Hs Hop Hne Hex.
  destruct (first_unknown _ _ Hex) as (known & missing & rest & -> & Hk & Hm).
  exists known, missing, rest, (reloaded e w data).
  rewrite (save_primrefs_found e w data spec op _ Hc Hd Hs Hop).
  rewrite (lookup_each_unknown _ known missing rest Hk Hm).
  destruct (Sdf.prependedItems op) as [|r refs] eqn:Hp; [done|].
  repeat split; try done.
  - simpl. apply lookup_insert_eq.
  - rewrite (load_primrefs_reloaded e w data Hc Hd).
    rewrite (load_primrefs_found e w data spec Hc Hd Hs). simpl.
    by rewrite Hop, Hp.
Qed.


(** What [load_primrefs] returns after a [save_primrefs] that got as far as
    [Save]: with a file on disk what the file held, and without one the
    asset paths of the assigned items. *)
Lemma load_primrefs_after_save (e : t) (w : Sdf.World)
    (data : Sdf.LayerData) (spec : Sdf.PrimSpec)
    (items : list Sdf.Reference) :
  cache_ok e →
  Sdf.current (usda_path e) w = Some data →
  Sdf.prim_at data (prim_path e) = Some spec →
  fst (load_primrefs (saved e w data spec items)) =
    inr (match Sdf.referenceList spec with
         | None => []
         | Some op =>
             match Sdf.disk w !! usda_path e with
             | Some _ => List.map Sdf.assetPath (Sdf.prependedItems op)
             | None => List.map Sdf.assetPath items
             end
         end).
Proof.
  intros Hc Hcur Hs.
  set (kept := match Sdf.disk w !! usda_path e with
               | Some _ => data
               | None => Sdf.assign_data (Sdf.path spec) items data
               end).
  assert (Hkept : Sdf.current (usda_path (self (saved e w data spec items)))
                    (sdf (saved e w data spec items)) = Some kept).
  { apply current_disk. unfold saved. simpl. apply lookup_insert_eq. }
  assert (Hat : ∃ spec',
             Sdf.prim_at kept (prim_path e) = Some spec' ∧
             Sdf.referenceList spec' =
               match Sdf.disk w !! usda_path e with
               | Some _ => Sdf.referenceList spec
               | None => Sdf.assign_prepended items (Sdf.referenceList spec)
               end).
  { unfold kept. destruct (Sdf.disk w !! usda_path e); [by exists spec|].
    rewrite (prim_at_path _ _ _ Hs). by apply prim_at_assign. }
  destruct Hat as (spec' & Hs' & Href).
  change (saved e w data spec items)
    with (mkEnv (self (saved e w data spec items))
            (sdf (saved e w data spec items))).
  rewrite (load_primrefs_at _ _ kept spec'); [|by right|done|done].
  simpl. rewrite Href.
  destruct (Sdf.disk w !! usda_path e), (Sdf.referenceList spec); done.
Qed.


(** C4 (as the code runs): when [new_order] is not empty and names only
    current asset paths, [save_primrefs(new_order)] returns without error,
    and so when it leaves out a current path as well; the file is as
    before, and the following [load_primrefs()] still returns every current
    path in the original order, the left-out one too: no entry is
    dropped. *)
Theorem save_primrefs_subset_drops_nothing (e : t) (w : Sdf.World)
    (data : Sdf.LayerData) (spec : Sdf.PrimSpec) (op : Sdf.ReferenceListOp)
    (new_order : list string) (left_out : string) :
  cache_ok e →
  Sdf.disk w !! usda_path e = Some data →
  Sdf.find_among (prim_path e) (Sdf.rootPrims data) = Some spec →
  Sdf.referenceList spec = Some op →
  NoDup (List.map Sdf.assetPath (Sdf.prependedItems op)) →
  new_order ≠ [] →
  Forall (λ p, p ∈ List.map Sdf.assetPath (Sdf.prependedItems op)) new_order →
  left_out ∈ List.map Sdf.assetPath (Sdf.prependedItems op) →
  left_out ∉ new_order →
  ∃ s1 after,
    save_primrefs new_order (mkEnv e w) = (inr tt, s1) ∧
    Sdf.disk (sdf s1) = Sdf.disk w ∧
    fst (load_primrefs s1) = inr after ∧
    after = List.map Sdf.assetPath (Sdf.prependedItems op) ∧
    left_out ∈ after ∧
    after ≠ new_order.
Proof.
  intros Hc Hd Hs Hop _ Hne Hall Hin Hout.
  destruct (save_primrefs_then_load e w data spec op new_order
              Hc Hd Hs Hop) as (s1 & H1 & H3 & H2); [|done|].
  - intros Hnil. rewrite Hnil in Hin. by apply elem_of_nil in Hin.
  - exists s1, (List.map Sdf.assetPath (Sdf.prependedItems op)).
    split_and!; try done. by intros <-.
Qed.

(** C5: on a prim that exists in the layer and carries no reference-list
    operation, [load_primrefs()] returns the empty list and raises no
    error. *)
Theorem load_primrefs_no_reference_list (e : t) (w : Sdf.World)
    (data : Sdf.LayerData) (spec : Sdf.PrimSpec) :
  cache_ok e →
  Sdf.disk w !! usda_path e = Some data →
  Sdf.find_among (prim_path e) (Sdf.rootPrims data) = Some spec →
  Sdf.referenceList spec = None →
  fst (load_primrefs (mkEnv e w)) = inr [].
Proof.
  intros Hc Hd Hs Hop.
  rewrite (load_primrefs_found e w data spec Hc Hd Hs). simpl.
  by rewrite Hop.
Qed.

(** C6 (as the code runs): on a prim that exists in the layer and carries
    no reference-list operation (none is authored on it),
    [save_primrefs(new_order)] does not raise
    [NoReferencesError]: [prim_spec.referenceList] is a proxy and never
    [None], so the test that guards the raise does not fire.  With the
    empty [new_order] the call returns without error, and with a non-empty
    one the emptiness test raises "No prepended references found on prim.";
    the file is not written. *)
Theorem save_primrefs_no_reference_list (e : t) (w : Sdf.World)
    (data : Sdf.LayerData) (spec : Sdf.PrimSpec) (new_order : list string) :
  cache_ok e →
  Sdf.disk w !! usda_path e = Some data →
  Sdf.find_among (prim_path e) (Sdf.rootPrims data) = Some spec →
  Sdf.referenceList spec = None →
  (new_order = [] → fst (save_primrefs new_order (mkEnv e w)) = inr tt) ∧
  (new_order ≠ [] →
     fst (save_primrefs new_order (mkEnv e w)) =
       inl NoPrependedReferencesError) ∧
  fst (save_primrefs new_order (mkEnv e w)) ≠ inl NoReferencesError ∧
  Sdf.disk (sdf (snd (save_primrefs new_order (mkEnv e w)))) = Sdf.disk w.
Proof.
  intros Hc Hd Hs Hop.
  pose proof (proj1 (save_primrefs_state e w data new_order Hc Hd)) as Hdisk.
  rewrite (save_primrefs_at e w data spec new_order Hc
             (current_disk _ _ _ Hd) (prim_at_found _ _ _ Hs)) in *.
  rewrite Hop in *. cbv zeta in *.
  destruct new_order as [|p rest]; simpl in *; by split_and!.
Qed.


(** C9: a prim path [p] that does not begin with "/" is stored as
    ["/" ++ p], the editor is the one constructed with ["/" ++ p], so that
    [load_primrefs] and [save_primrefs] do the same on both; a prim path
    that begins with "/" is stored as it is. *)
Theorem init_normalizes_prim_path (f p : string) :
  (startswith p "/" = false →
     prim_path (__init__ f p) = "/" ++ p ∧
     __init__ f p = __init__ f ("/" ++ p) ∧
     (∀ w, load_primrefs (mkEnv (__init__ f p) w) =
           load_primrefs (mkEnv (__init__ f ("/" ++ p)) w)) ∧
     (∀ new_order w,
        save_primrefs new_order (mkEnv (__init__ f p) w) =
        save_primrefs new_order (mkEnv (__init__ f ("/" ++ p)) w))) ∧
  (startswith p "/" = true → prim_path (__init__ f p) = p).
Proof.
  assert (Heq : startswith p "/" = false →
                __init__ f p = __init__ f ("/" ++ p)).
  { intros H. unfold __init__. rewrite H. simpl.
    unfold startswith. simpl. by generalize (String.append "" p); intros []. }
  split.
  - intros H. split; [unfold __init__; by rewrite H|].
    split; [by apply Heq|]. split; intros; by rewrite (Heq H).
  - intros H. unfold __init__. by rewrite H.
Qed.

End PrimRefEditorClaims.

(** ** The sublayer editor *)
Section SublayerEditorClaims.
Import UsdaSublayerEditor.

Lemma sub_get_layer_reloads (e : t) (w : Sdf.World) (data : Sdf.LayerData) :
  cache_ok e →
  Sdf.disk w !! usda_path e = Some data →
  _get_layer (mkEnv e w) = (inr (usda_path e), reloaded e w data).
Proof.
  intros Hc Hd. destruct e as [f l]. simpl in *.
  unfold _get_layer, reloaded. run_step.
  destruct Hc as [Hc | Hc]; simpl in Hc; subst l; simpl.
  - unfold Sdf.FindOrOpen.
    destruct (Sdf.registry w !! f) eqn:Hr; simpl.
    + unfold Sdf.Reload. simpl. by rewrite Hd.
    + rewrite Hd. unfold Sdf.Reload. simpl. rewrite Hd.
      by rewrite insert_insert_eq.
  - unfold Sdf.Reload. by rewrite Hd.
Qed.

(** The library accepts a list without a repeated or an empty path. *)
Lemma valid_subLayerPaths_true (paths : list string) :
  NoDup paths → "" ∉ paths → Sdf.valid_subLayerPaths paths = true.
Proof.
  intros Hnd Hne. unfold Sdf.valid_subLayerPaths.
  by rewrite !bool_decide_eq_true_2.
Qed.

(** [save_sublayers] with a list that the library accepts: the state that
    the call leaves. *)
Lemma save_sublayers_accepted (e : t) (w : Sdf.World)
    (data : Sdf.LayerData) (new_order : list string) :
  cache_ok e →
  Sdf.disk w !! usda_path e = Some data →
  Sdf.valid_subLayerPaths new_order = true →
  save_sublayers new_order (mkEnv e w) =
    (inr tt,
     mkEnv (mk (usda_path e) (Some (usda_path e)))
       (Sdf.mkWorld
          (<[usda_path e := Sdf.mkLayerData new_order (Sdf.rootPrims data)]>
             (Sdf.disk w))
          (<[usda_path e := Sdf.mkLayerData new_order (Sdf.rootPrims data)]>
             (Sdf.registry w))
          (Sdf.calls w ++
             [Sdf.Reloaded (usda_path e);
              Sdf.AssignedSubLayerPaths (usda_path e) new_order;
              Sdf.Saved (usda_path e)]))).
Proof.
  intros Hc Hd Hv. unfold save_sublayers.
  rewrite run_bind, (sub_get_layer_reloads e w data Hc Hd).
  run_step. unfold Sdf.set_subLayerPaths. rewrite Hv.
  unfold Sdf.Save, reloaded. simpl.
  rewrite lookup_insert_eq. simpl. rewrite lookup_insert_eq.
  rewrite insert_insert_eq. by rewrite <- !app_assoc.
Qed.

(** [save_sublayers] with a list that the library refuses: the error of
    the library, after the reload and before any assignment or save. *)
Lemma save_sublayers_refused (e : t) (w : Sdf.World)
    (data : Sdf.LayerData) (new_order : list string) :
  cache_ok e →
  Sdf.disk w !! usda_path e = Some data →
  Sdf.valid_subLayerPaths new_order = false →
  save_sublayers new_order (mkEnv e w) =
    (inl LibraryError, reloaded e w data).
Proof.
  intros Hc Hd Hv. unfold save_sublayers.
  rewrite run_bind, (sub_get_layer_reloads e w data Hc Hd).
  run_step. unfold Sdf.set_subLayerPaths. by rewrite Hv.
Qed.


End SublayerEditorClaims.

(** ** The traversal *)

(** The test of the loop holds of the specs that carry a reference-list
    operation with a non-empty prepended list. *)
Lemma has_prepended_refs_true (s : Sdf.PrimSpec) :
  has_prepended_refs s = true ↔
  ∃ op, Sdf.referenceList s = Some op ∧ Sdf.prependedItems op ≠ [].
Proof.
  unfold has_prepended_refs, Sdf.get_referenceList.
  destruct (Sdf.referenceList s) as [op|]; simpl.
  - split.
    + intros H. exists op. split; [done|]. intros Hnil. by rewrite Hnil in H.
    + intros (op' & [= <-] & Hne). by destruct (Sdf.prependedItems op).
  - split; [done|]. by intros (op & ? & _).
Qed.

Lemma elem_of_rev {A} (x : A) (l : list A) : x ∈ rev l ↔ x ∈ l.
Proof. rewrite !list_elem_of_In. symmetry. apply in_rev. Qed.

Lemma elem_of_visit (stack : list Sdf.PrimSpec) (result : list string)
    (p : string) :
  p ∈ visit stack result ↔
  p ∈ result ∨
  ∃ root s, root ∈ stack ∧ subspec s root ∧
            Sdf.path s = p ∧ has_prepended_refs s = true.
Proof.
  funelim (visit stack result); simp visit.
  - split; [by left|]. intros [? | (root & s & Hin & _)]; [done|].
    by apply elem_of_nil in Hin.
  - rewrite H. clear H Heqcall. split.
    + intros [Hres | (root & s & Hin & Hsub & Hp & Hrefs)].
      * destruct (has_prepended_refs spec) eqn:E; [|by left].
        apply elem_of_app in Hres as [Hres | Hres]; [by left|].
        apply list_elem_of_singleton in Hres. right.
        exists spec, spec. repeat split; [left | constructor | done | done].
      * right. apply elem_of_app in Hin as [Hin | Hin].
        -- rewrite elem_of_rev in Hin. exists spec, s.
           repeat split; [left | | done | done].
           by apply (subspec_child s root spec).
        -- exists root, s. repeat split; [by right | done | done | done].
    + intros [Hres | (root & s & Hin & Hsub & Hp & Hrefs)].
      * left. destruct (has_prepended_refs spec); [|done].
        apply elem_of_app. by left.
      * apply elem_of_cons in Hin as [-> | Hin].
        -- apply subspec_inv in Hsub as [-> | (c & Hc & Hsub)].
           ++ left. rewrite Hrefs. apply elem_of_app. right.
              rewrite Hp. apply list_elem_of_singleton. done.
           ++ right. exists c, s. repeat split; [|done..].
              apply elem_of_app. left. by rewrite elem_of_rev.
        -- right. exists root, s. repeat split; [|done..].
           apply elem_of_app. by right.
Qed.

(** C8: for every layer file that opens, [get_prim_paths_with_prepended_refs]
    returns a list, and a path is in it exactly when it is the path of a prim
    of the layer (a root prim or a descendant of one) whose reference-list
    operation exists and has a non-empty prepended list. *)
Theorem get_prim_paths_complete (usda_path : string) (w : Sdf.World)
    (data : Sdf.LayerData) :
  Sdf.disk w !! usda_path = Some data →
  ∃ result,
    fst (get_prim_paths_with_prepended_refs usda_path w) = inr result ∧
    ∀ p, p ∈ result ↔
         ∃ s op, spec_in_layer data s ∧ Sdf.path s = p ∧
                 Sdf.referenceList s = Some op ∧
                 Sdf.prependedItems op ≠ [].
Proof.
  intros Hd. exists (visit (rev (Sdf.rootPrims data)) []).
  assert (Hrun : fst (get_prim_paths_with_prepended_refs usda_path w) =
                 inr (visit (rev (Sdf.rootPrims data)) [])).
  { unfold get_prim_paths_with_prepended_refs. run_step.
    unfold Sdf.FindOrOpen.
    destruct (Sdf.registry w !! usda_path) eqn:Hr; rewrite ?Hd; simpl;
      unfold Sdf.Reload, Sdf.get_rootPrims; simpl; rewrite Hd; simpl;
      by rewrite lookup_insert_eq. }
  split; [done|]. intros p. rewrite elem_of_visit. split.
  - intros [Hnil | (root & s & Hin & Hsub & Hp & Hrefs)].
    + by apply elem_of_nil in Hnil.
    + rewrite elem_of_rev in Hin.
      apply has_prepended_refs_true in Hrefs as (op & Hop & Hne).
      exists s, op. split_and!; [by exists root | done | done | done].
  - intros (s & op & (root & Hin & Hsub) & Hp & Hop & Hne). right.
    exists root, s. split_and!; [by rewrite elem_of_rev | done | done |].
    apply has_prepended_refs_true. by exists op.
Qed.

(** ** The properties on the example files *)
Section Runs.
Import UsdPrimRefEditor.

(** [save_primrefs(["c.usda", "a.usda", "b.usda"])] on [/robotCharComp] of
    [shot.usda], then [load_primrefs()]. *)
Lemma save_primrefs_permutation_reverts_run :
  ∃ s1,
    save_primrefs ["c.usda"; "a.usda"; "b.usda"]
      (mkEnv Example.robot_editor Example.world) = (inr tt, s1) ∧
    Sdf.disk (sdf s1) = Sdf.disk Example.world ∧
    fst (load_primrefs s1) = inr ["a.usda"; "b.usda"; "c.usda"] ∧
    ["a.usda"; "b.usda"; "c.usda"] ≠ ["c.usda"; "a.usda"; "b.usda"].
Proof.
  apply (save_primrefs_permutation_reverts Example.robot_editor Example.world
           Example.shot Example.robotCharComp
           Example.ref_a Example.ref_b Example.ref_c []).
  - by left.
  - reflexivity.
  - reflexivity.
  - reflexivity.
  - apply (bool_decide_unpack _). reflexivity.
Defined.

(** C2 as stated fails on a prim whose prepended list is empty: the path
    "anim.usda" of [new_order] is no current asset path, and the error
    raised is the one of the emptiness test, not [UnknownReferenceError]. *)
Lemma save_primrefs_unknown_path_empty_prepended :
  "anim.usda" ∈ ["anim.usda"] ∧
  ("anim.usda" ∉
     List.map Sdf.assetPath
       (Sdf.prependedItems
          (Sdf.mkReferenceListOp [] [Sdf.mkReference "props.usda" ""]))) ∧
  Sdf.find_among "/propsGrp" (Sdf.rootPrims Example.shot) =
    Some Example.propsGrp ∧
  fst (save_primrefs ["anim.usda"]
         (mkEnv (__init__ "shot.usda" "/propsGrp") Example.world)) =
    inl NoPrependedReferencesError ∧
  fst (save_primrefs ["anim.usda"]
         (mkEnv (__init__ "shot.usda" "/propsGrp") Example.world)) ≠
    inl (UnknownReferenceError "anim.usda").
Proof.
  split_and!.
  - apply list_elem_of_here.
  - apply not_elem_of_nil.
  - reflexivity.
  - reflexivity.
  - discriminate.
Qed.

(** [save_primrefs(["a.usda", "nonexistent", "b.usda"])] on
    [/robotCharComp]. *)
Lemma save_primrefs_unknown_path_run :
  ∃ (known : list string) (missing : string) (rest : list string) s1,
    ["a.usda"; "nonexistent"; "b.usda"] =
      (known ++ missing :: rest)%list ∧
    Forall (λ p, p ∈ ["a.usda"; "b.usda"; "c.usda"]) known ∧
    (missing ∉ ["a.usda"; "b.usda"; "c.usda"]) ∧
    save_primrefs ["a.usda"; "nonexistent"; "b.usda"]
      (mkEnv Example.robot_editor Example.world) =
      (inl (UnknownReferenceError missing), s1) ∧
    Sdf.disk (sdf s1) = Sdf.disk Example.world ∧
    Sdf.registry (sdf s1) !! "shot.usda" = Some Example.shot ∧
    fst (load_primrefs s1) = inr ["a.usda"; "b.usda"; "c.usda"].
Proof.
  apply (save_primrefs_unknown_path Example.robot_editor Example.world
           Example.shot Example.robotCharComp
           (Sdf.mkReferenceListOp
              [Example.ref_a; Example.ref_b; Example.ref_c] [])
           ["a.usda"; "nonexistent"; "b.usda"]).
  - by left.
  - reflexivity.
  - reflexivity.
  - reflexivity.
  - discriminate.
  - exists "nonexistent". split.
    + apply (bool_decide_unpack _). reflexivity.
    + apply (bool_decide_unpack _). reflexivity.
Defined.



(** [save_primrefs(["c.usda", "a.usda"])] on [/robotCharComp], which leaves
    "b.usda" out. *)
Lemma save_primrefs_subset_drops_nothing_run :
  ∃ s1 after,
    save_primrefs ["c.usda"; "a.usda"]
      (mkEnv Example.robot_editor Example.world) = (inr tt, s1) ∧
    Sdf.disk (sdf s1) = Sdf.disk Example.world ∧
    fst (load_primrefs s1) = inr after ∧
    after = ["a.usda"; "b.usda"; "c.usda"] ∧
    "b.usda" ∈ after ∧
    after ≠ ["c.usda"; "a.usda"].
Proof.
  apply (save_primrefs_subset_drops_nothing Example.robot_editor Example.world
           Example.shot Example.robotCharComp
           (Sdf.mkReferenceListOp
              [Example.ref_a; Example.ref_b; Example.ref_c] [])
           ["c.usda"; "a.usda"] "b.usda").
  - by left.
  - reflexivity.
  - reflexivity.
  - reflexivity.
  - apply (bool_decide_unpack _). reflexivity.
  - discriminate.
  - apply (bool_decide_unpack _). reflexivity.
  - apply (bool_decide_unpack _). reflexivity.
  - apply (bool_decide_unpack _). reflexivity.
Defined.

(** [load_primrefs()] on [/camera], which has no reference-list
    operation. *)
Lemma load_primrefs_no_reference_list_run :
  fst (load_primrefs (mkEnv (__init__ "shot.usda" "/camera") Example.world)) =
    inr [].
Proof.
  apply (load_primrefs_no_reference_list (__init__ "shot.usda" "/camera")
           Example.world Example.shot Example.camera).
  - by left.
  - reflexivity.
  - reflexivity.
  - reflexivity.
Defined.

(** [save_primrefs([])] and [save_primrefs(["a.usda"])] on [/camera], which
    has no reference-list operation: no error for the first, the error of
    the emptiness test for the second. *)
Lemma save_primrefs_no_reference_list_run :
  fst (save_primrefs []
         (mkEnv (__init__ "shot.usda" "/camera") Example.world)) = inr tt ∧
  fst (save_primrefs ["a.usda"]
         (mkEnv (__init__ "shot.usda" "/camera") Example.world)) =
    inl NoPrependedReferencesError.
Proof.
  split.
  - apply (save_primrefs_no_reference_list (__init__ "shot.usda" "/camera")
             Example.world Example.shot Example.camera []);
      [by left | reflexivity | reflexivity | reflexivity | reflexivity].
  - apply (save_primrefs_no_reference_list (__init__ "shot.usda" "/camera")
             Example.world Example.shot Example.camera ["a.usda"]);
      [by left | reflexivity | reflexivity | reflexivity | discriminate].
Defined.


(** The editors constructed with "robotCharComp" and with
    "/robotCharComp". *)
Lemma init_normalizes_prim_path_run :
  (prim_path (__init__ "shot.usda" "robotCharComp") = "/robotCharComp" ∧
   __init__ "shot.usda" "robotCharComp" =
     __init__ "shot.usda" "/robotCharComp") ∧
  prim_path (__init__ "shot.usda" "/robotCharComp") = "/robotCharComp".
Proof.
  split.
  - destruct (proj1 (init_normalizes_prim_path "shot.usda" "robotCharComp")
                eq_refl) as (H1 & H2 & _).
    exact (conj H1 H2).
  - exact (proj2 (init_normalizes_prim_path "shot.usda" "/robotCharComp")
             eq_refl).
Defined.

End Runs.



(** [get_prim_paths_with_prepended_refs("scene.usda")] *)
Lemma get_prim_paths_complete_run :
  ∃ result,
    fst (get_prim_paths_with_prepended_refs "scene.usda" Example.world) =
      inr result ∧
    ∀ p, p ∈ result ↔
         ∃ s op, spec_in_layer Example.scene s ∧ Sdf.path s = p ∧
                 Sdf.referenceList s = Some op ∧
                 Sdf.prependedItems op ≠ [].
Proof.
  apply (get_prim_paths_complete "scene.usda" Example.world Example.scene).
  reflexivity.
Defined.

(** The traversal on [scene.usda] pops [/C] first, then [/A], then
    [/A/B]. *)
Example get_prim_paths_scene :
  fst (get_prim_paths_with_prepended_refs "scene.usda" Example.world) =
    inr ["/C"; "/A/B"].
Proof. reflexivity. Qed.

(** * Further properties of the program *)

(** ** The prim-reference editor *)
Section PrimRefEditorMore.
Import UsdPrimRefEditor.

(** X1: when the file of an editor that has no layer yet cannot be opened
    (no such file, no such layer open), [load_primrefs()] and
    [save_primrefs(new_order)] raise the "Could not open USD layer" error
    with the file path, and leave the editor and the world as they were. *)
Theorem primrefs_layer_open_error (e : t) (w : Sdf.World)
    (new_order : list string) :
  _layer e = None →
  Sdf.disk w !! usda_path e = None →
  Sdf.registry w !! usda_path e = None →
  load_primrefs (mkEnv e w) =
    (inl (LayerOpenError (usda_path e)), mkEnv e w) ∧
  save_primrefs new_order (mkEnv e w) =
    (inl (LayerOpenError (usda_path e)), mkEnv e w).
Proof.
  intros Hl Hd Hr. destruct e as [f p l]. simpl in *. subst l.
  unfold load_primrefs, save_primrefs, _get_prim_spec, _get_layer.
  run_step. simpl. unfold Sdf.FindOrOpen. by rewrite Hr, Hd.
Qed.

(** X2: when the layer has no prim at the path of the editor, and that
    path is not "/", the path of the pseudo-root, [load_primrefs()] and
    [save_primrefs(new_order)] raise the "Could not find prim at path" error
    with the prim path, and the file is not written. *)
Theorem primrefs_prim_not_found (e : t) (w : Sdf.World)
    (data : Sdf.LayerData) (new_order : list string) :
  cache_ok e →
  Sdf.disk w !! usda_path e = Some data →
  Sdf.find_among (prim_path e) (Sdf.rootPrims data) = None →
  prim_path e ≠ "/" →
  fst (load_primrefs (mkEnv e w)) = inl (PrimNotFoundError (prim_path e)) ∧
  fst (save_primrefs new_order (mkEnv e w)) =
    inl (PrimNotFoundError (prim_path e)) ∧
  Sdf.disk (sdf (snd (save_primrefs new_order (mkEnv e w)))) = Sdf.disk w.
Proof.
  intros Hc Hd Hs Hne. unfold load_primrefs, save_primrefs.
  by rewrite !run_bind, (_get_prim_spec_missing e w data Hc Hd Hs Hne).
Qed.

(** X18: an editor whose prim path is "/" (the constructor stores it for
    the empty prim path) targets the pseudo-root of the layer, which has no
    references: [load_primrefs()] returns the empty list and raises no
    error. *)
Theorem load_primrefs_pseudo_root (e : t) (w : Sdf.World)
    (data : Sdf.LayerData) :
  cache_ok e →
  Sdf.disk w !! usda_path e = Some data →
  prim_path e = "/" →
  Sdf.find_among "/" (Sdf.rootPrims data) = None →
  fst (load_primrefs (mkEnv e w)) = inr [].
Proof.
  intros Hc Hd Hp Hs.
  rewrite (load_primrefs_at e w data (Sdf.pseudoRoot data) Hc
             (current_disk _ _ _ Hd)); [done|].
  unfold Sdf.prim_at. by rewrite Hp, Hs.
Qed.

(** X20: when the layer of the editor is open and its file is gone, nothing
    is reloaded and [save_primrefs(new_order)] does reorder: for a
    [new_order] of distinct current asset paths the call returns without
    error, the file is written anew, and the following [load_primrefs()]
    returns exactly [new_order]. *)
Theorem save_primrefs_without_file (e : t) (w : Sdf.World)
    (data : Sdf.LayerData) (spec : Sdf.PrimSpec) (op : Sdf.ReferenceListOp)
    (new_order : list string) :
  cache_ok e →
  Sdf.disk w !! usda_path e = None →
  Sdf.registry w !! usda_path e = Some data →
  Sdf.find_among (prim_path e) (Sdf.rootPrims data) = Some spec →
  Sdf.referenceList spec = Some op →
  NoDup new_order →
  Forall (λ p, p ∈ List.map Sdf.assetPath (Sdf.prependedItems op)) new_order →
  ∃ s1,
    save_primrefs new_order (mkEnv e w) = (inr tt, s1) ∧
    is_Some (Sdf.disk (sdf s1) !! usda_path e) ∧
    fst (load_primrefs s1) = inr new_order.
Proof.
  intros Hc Hd Hr Hs Hop _ Hall.
  assert (Hcur : Sdf.current (usda_path e) w = Some data).
  { unfold Sdf.current. by rewrite Hd. }
  pose proof (prim_at_found _ _ _ Hs) as Hat.
  rewrite (save_primrefs_at e w data spec new_order Hc Hcur Hat).
  rewrite Hop. cbv zeta.
  destruct (lookup_each_known _ new_order Hall) as (l & Hl & Hpaths).
  assert (Hguard : negb (truthy (Sdf.prependedItems op)) && truthy new_order
                   = false).
  { destruct (Sdf.prependedItems op); [|done].
    destruct new_order as [|q rest]; [done|].
    apply Forall_cons in Hall as [Hq _]. by apply elem_of_nil in Hq. }
  rewrite Hguard, Hl. exists (saved e w data spec l). split_and!.
  - done.
  - unfold saved. simpl. rewrite lookup_insert_eq. by eexists.
  - rewrite (load_primrefs_after_save e w data spec l Hc Hcur Hat).
    by rewrite Hop, Hd, Hpaths.
Qed.

(** X3: [load_primrefs()] returns the asset paths of the prepended items
    that the file holds at the time of the call, in the order of the file,
    and nothing of the appended items, whatever the layer held in memory
    before the call. *)
Theorem load_primrefs_reads_file_order (e : t) (w : Sdf.World)
    (data : Sdf.LayerData) (spec : Sdf.PrimSpec) (op : Sdf.ReferenceListOp) :
  cache_ok e →
  Sdf.disk w !! usda_path e = Some data →
  Sdf.find_among (prim_path e) (Sdf.rootPrims data) = Some spec →
  Sdf.referenceList spec = Some op →
  fst (load_primrefs (mkEnv e w)) =
    inr (List.map Sdf.assetPath (Sdf.prependedItems op)).
Proof.
  intros Hc Hd Hs Hop.
  rewrite (load_primrefs_found e w data spec Hc Hd Hs). simpl.
  by rewrite Hop.
Qed.

(** X4: when another process replaces the file between two calls of
    [load_primrefs()] on the same editor, the second call returns the
    references of the new content, not those that the first call read. *)
Theorem load_primrefs_after_external_write (e : t) (w : Sdf.World)
    (data data' : Sdf.LayerData) (spec' : Sdf.PrimSpec)
    (op' : Sdf.ReferenceListOp) :
  cache_ok e →
  Sdf.disk w !! usda_path e = Some data →
  Sdf.find_among (prim_path e) (Sdf.rootPrims data') = Some spec' →
  Sdf.referenceList spec' = Some op' →
  ∃ first_result s1,
    load_primrefs (mkEnv e w) = (first_result, s1) ∧
    fst (load_primrefs
           (mkEnv (self s1) (external_write (usda_path e) data' (sdf s1)))) =
      inr (List.map Sdf.assetPath (Sdf.prependedItems op')).
Proof.
  intros Hc Hd Hs' Hop'.
  destruct (load_primrefs (mkEnv e w)) as [r s1] eqn:Hload.
  exists r, s1. split; [done|].
  pose proof (load_primrefs_same_editor e w Hc) as (Hf & Hp & Hc1).
  rewrite Hload in Hf, Hp, Hc1. simpl in Hf, Hp, Hc1.
  rewrite (load_primrefs_found (self s1)
             (external_write (usda_path e) data' (sdf s1)) data' spec').
  - simpl. by rewrite Hop'.
  - done.
  - rewrite Hf. simpl. apply lookup_insert_eq.
  - by rewrite Hp.
Qed.

(** X5: [save_primrefs(new_order)] never changes the file, whatever
    [new_order] is and however the call ends. *)
Theorem save_primrefs_never_writes (e : t) (w : Sdf.World)
    (data : Sdf.LayerData) (new_order : list string) :
  cache_ok e →
  Sdf.disk w !! usda_path e = Some data →
  Sdf.disk (sdf (snd (save_primrefs new_order (mkEnv e w)))) = Sdf.disk w.
Proof.
  intros Hc Hd. apply (save_primrefs_state e w data new_order Hc Hd).
Qed.

(** X6: on a prim that carries a reference-list operation,
    [save_primrefs(new_order)] returns without error exactly when every
    path of [new_order] is the asset path of a current prepended reference;
    neither the length of [new_order] nor repeated paths are looked at. *)
Theorem save_primrefs_succeeds_iff_known (e : t) (w : Sdf.World)
    (data : Sdf.LayerData) (spec : Sdf.PrimSpec) (op : Sdf.ReferenceListOp)
    (new_order : list string) :
  cache_ok e →
  Sdf.disk w !! usda_path e = Some data →
  Sdf.find_among (prim_path e) (Sdf.rootPrims data) = Some spec →
  Sdf.referenceList spec = Some op →
  fst (save_primrefs new_order (mkEnv e w)) = inr tt ↔
  Forall (λ p, p ∈ List.map Sdf.assetPath (Sdf.prependedItems op)) new_order.
Proof.
  intros Hc Hd Hs Hop.
  rewrite (save_primrefs_found e w data spec op new_order Hc Hd Hs Hop).
  simpl. split.
  - destruct (negb (truthy (Sdf.prependedItems op)) && truthy new_order);
      [done|].
    destruct (lookup_each _ new_order) as [m | l] eqn:El; [done|].
    intros _. apply lookup_each_inr in El as [<- Hin].
    induction Hin as [|r l Hr _ IH]; simpl; constructor; [|done].
    apply list_elem_of_fmap. by exists r.
  - intros Hall.
    destruct (lookup_each_known _ new_order Hall) as (l & -> & _).
    destruct (Sdf.prependedItems op) as [|r refs]; simpl; [|done].
    destruct new_order as [|q rest]; [done|].
    apply Forall_cons in Hall as [Hq _]. by apply elem_of_nil in Hq.
Qed.

(** X7: whatever the outcome of [load_primrefs()] or
    [save_primrefs(new_order)], the editor keeps its file path and its prim
    path, and the layer it has cached, if any, is the one of its file. *)
Theorem primref_editor_keeps_target (e : t) (w : Sdf.World)
    (new_order : list string) :
  cache_ok e →
  same_editor e (self (snd (load_primrefs (mkEnv e w)))) ∧
  same_editor e (self (snd (save_primrefs new_order (mkEnv e w)))).
Proof.
  intros Hc. split.
  - by apply load_primrefs_same_editor.
  - by apply save_primrefs_same_editor.
Qed.

(** X17: the prim path that the constructor stores always begins with
    "/", and constructing an editor with a stored prim path stores it
    unchanged. *)
Theorem init_prim_path_absolute (f p : string) :
  startswith (prim_path (__init__ f p)) "/" = true ∧
  __init__ f (prim_path (__init__ f p)) = __init__ f p.
Proof.
  assert (H : startswith (prim_path (__init__ f p)) "/" = true).
  { unfold __init__. simpl. destruct (startswith p "/") eqn:E; [done|].
    unfold startswith. simpl.
    by generalize (String.append "" p); intros []. }
  split; [done|]. unfold __init__ at 1. by rewrite H.
Qed.

End PrimRefEditorMore.

(** ** The dictionary of the current references, with repeated paths *)
Section ByAssetMore.
Import UsdPrimRefEditor.

Lemma fold_insert_other (refs : list Sdf.Reference)
    (d : gmap string Sdf.Reference) (p : string) :
  Forall (λ x, Sdf.assetPath x ≠ p) refs →
  fold_left (λ d ref, <[Sdf.assetPath ref := ref]> d) refs d !! p = d !! p.
Proof.
  intros H. revert d. induction H as [|x refs Hx _ IH]; intros d; simpl.
  - done.
  - by rewrite IH, lookup_insert_ne.
Qed.

(** X8: when several current references have the same asset path, the
    dictionary built by [save_primrefs] keeps the last of them: the entry
    under the asset path of a reference is that reference as soon as no
    later reference has its asset path. *)
Theorem by_asset_of_last_wins (earlier later : list Sdf.Reference)
    (r : Sdf.Reference) :
  Forall (λ x, Sdf.assetPath x ≠ Sdf.assetPath r) later →
  by_asset_of (earlier ++ r :: later) !! Sdf.assetPath r = Some r.
Proof.
  intros H. unfold by_asset_of. rewrite fold_left_app. simpl.
  rewrite (fold_insert_other later _ _ H). apply lookup_insert_eq.
Qed.

End ByAssetMore.

(** ** Reading never writes *)

Lemma FindOrOpen_disk (identifier : string) (w : Sdf.World) :
  Sdf.disk (snd (Sdf.FindOrOpen identifier w)) = Sdf.disk w.
Proof.
  unfold Sdf.FindOrOpen.
  destruct (Sdf.registry w !! identifier); [done|].
  by destruct (Sdf.disk w !! identifier).
Qed.

Lemma Reload_disk (layer : Sdf.Layer) (w : Sdf.World) :
  Sdf.disk (Sdf.Reload layer w) = Sdf.disk w.
Proof. reflexivity. Qed.

Lemma primref_get_layer_disk (e : UsdPrimRefEditor.t) (w : Sdf.World) :
  Sdf.disk (sdf (snd (UsdPrimRefEditor._get_layer (mkEnv e w)))) =
  Sdf.disk w.
Proof.
  destruct e as [f p [l|]]; unfold UsdPrimRefEditor._get_layer; run_step;
    simpl.
  - by rewrite ?Reload_disk.
  - pose proof (FindOrOpen_disk f w) as H.
    destruct (Sdf.FindOrOpen f w) as [[l|] w']; simpl in *; [|done].
    by rewrite ?Reload_disk.
Qed.

Lemma sublayer_get_layer_disk (e : UsdaSublayerEditor.t) (w : Sdf.World) :
  Sdf.disk (sdf (snd (UsdaSublayerEditor._get_layer (mkEnv e w)))) =
  Sdf.disk w.
Proof.
  destruct e as [f [l|]]; unfold UsdaSublayerEditor._get_layer; run_step;
    simpl.
  - by rewrite ?Reload_disk.
  - pose proof (FindOrOpen_disk f w) as H.
    destruct (Sdf.FindOrOpen f w) as [[l|] w']; simpl in *; [|done].
    by rewrite ?Reload_disk.
Qed.

(** X9: the three reading operations, [load_primrefs()],
    [load_sublayers()] and [get_prim_paths_with_prepended_refs(usda_path)],
    leave every file as it is, in every state and however they end. *)
Theorem reading_never_writes :
  (∀ (e : UsdPrimRefEditor.t) (w : Sdf.World),
     Sdf.disk (sdf (snd (UsdPrimRefEditor.load_primrefs (mkEnv e w)))) =
     Sdf.disk w) ∧
  (∀ (e : UsdaSublayerEditor.t) (w : Sdf.World),
     Sdf.disk (sdf (snd (UsdaSublayerEditor.load_sublayers (mkEnv e w)))) =
     Sdf.disk w) ∧
  (∀ (usda_path : string) (w : Sdf.World),
     Sdf.disk (snd (get_prim_paths_with_prepended_refs usda_path w)) =
     Sdf.disk w).
Proof.
  split_and!.
  - intros e w. pose proof (primref_get_layer_disk e w) as H.
    unfold UsdPrimRefEditor.load_primrefs, UsdPrimRefEditor._get_prim_spec.
    rewrite !run_bind.
    destruct (UsdPrimRefEditor._get_layer (mkEnv e w))
      as [[err | layer] [e' w']]; simpl in *; [done|].
    run_step.
    destruct (Sdf.GetPrimAtPath layer (UsdPrimRefEditor.prim_path e') w')
      as [h|]; simpl; [|done].
    by destruct (Sdf.referenceList (Sdf.handle_spec h)).
  - intros e w. pose proof (sublayer_get_layer_disk e w) as H.
    unfold UsdaSublayerEditor.load_sublayers. rewrite run_bind.
    by destruct (UsdaSublayerEditor._get_layer (mkEnv e w))
      as [[err | layer] [e' w']].
  - intros f w. pose proof (FindOrOpen_disk f w) as H.
    unfold get_prim_paths_with_prepended_refs. run_step.
    destruct (Sdf.FindOrOpen f w) as [[l|] w']; simpl in *; [|done].
    by rewrite ?Reload_disk.
Qed.

(** ** The sublayer editor *)
Section SublayerEditorMore.
Import UsdaSublayerEditor.

(** X10: when the file of a sublayer editor that has no layer yet cannot be
    opened, [load_sublayers()] and [save_sublayers(new_order)] raise the
    "Could not open USD layer" error with the file path, and leave the
    editor and the world as they were: no file is created. *)
Theorem sublayers_layer_open_error (e : t) (w : Sdf.World)
    (new_order : list string) :
  _layer e = None →
  Sdf.disk w !! usda_path e = None →
  Sdf.registry w !! usda_path e = None →
  load_sublayers (mkEnv e w) =
    (inl (LayerOpenError (usda_path e)), mkEnv e w) ∧
  save_sublayers new_order (mkEnv e w) =
    (inl (LayerOpenError (usda_path e)), mkEnv e w).
Proof.
  intros Hl Hd Hr. destruct e as [f l]. simpl in *. subst l.
  unfold load_sublayers, save_sublayers, _get_layer.
  run_step. simpl. unfold Sdf.FindOrOpen. by rewrite Hr, Hd.
Qed.

(** X11: [load_sublayers()] returns the sublayer paths that the file holds
    at the time of the call, in the order of the file, whatever the layer
    held in memory before the call. *)
Theorem load_sublayers_reads_file (e : t) (w : Sdf.World)
    (data : Sdf.LayerData) :
  cache_ok e →
  Sdf.disk w !! usda_path e = Some data →
  fst (load_sublayers (mkEnv e w)) = inr (Sdf.subLayerPaths data).
Proof.
  intros Hc Hd. unfold load_sublayers.
  rewrite run_bind, (sub_get_layer_reloads e w data Hc Hd).
  run_step. unfold Sdf.get_subLayerPaths, reloaded. simpl.
  by rewrite lookup_insert_eq.
Qed.

(** X12: [save_sublayers(new_order)] writes no file other than the one of
    the editor, however it ends. *)
Theorem save_sublayers_other_files (e : t) (w : Sdf.World)
    (new_order : list string) (other : string) :
  cache_ok e →
  other ≠ usda_path e →
  Sdf.disk (sdf (snd (save_sublayers new_order (mkEnv e w)))) !! other =
  Sdf.disk w !! other.
Proof.
  intros Hc Hne.
  assert (Hlayer : ∀ layer s,
            _get_layer (mkEnv e w) = (inr layer, s) → layer = usda_path e).
  { intros layer s. destruct e as [f l]. unfold _get_layer. run_step.
    destruct Hc as [Hc | Hc]; simpl in Hc; subst l; simpl.
    - destruct (Sdf.FindOrOpen f w) as [[l|] w'] eqn:E; simpl; [|done].
      intros [= <- _]. unfold Sdf.FindOrOpen in E.
      destruct (Sdf.registry w !! f); [by injection E as <- _|].
      destruct (Sdf.disk w !! f); [by injection E as <- _ | done].
    - by intros [= <- _]. }
  pose proof (sublayer_get_layer_disk e w) as Hdisk.
  unfold save_sublayers. rewrite run_bind.
  destruct (_get_layer (mkEnv e w)) as [[err | layer] [e' w']] eqn:E;
    simpl in *; [by rewrite Hdisk|].
  rewrite (Hlayer layer _ eq_refl). run_step.
  unfold Sdf.set_subLayerPaths.
  destruct (Sdf.valid_subLayerPaths new_order); simpl; [|by rewrite Hdisk].
  destruct (Sdf.registry w' !! usda_path e) as [d|] eqn:Hr; simpl.
  - rewrite lookup_insert_eq.
    rewrite lookup_insert_ne by done. by rewrite Hdisk.
  - rewrite Hr. by rewrite Hdisk.
Qed.

(** X13: saving back what was just loaded changes nothing: when the
    sublayer paths of the file have no repeated and no empty path,
    [save_sublayers(load_sublayers())] returns without error and leaves
    the file with the content it had. *)
Theorem save_loaded_sublayers (e : t) (w : Sdf.World)
    (data : Sdf.LayerData) :
  cache_ok e →
  Sdf.disk w !! usda_path e = Some data →
  NoDup (Sdf.subLayerPaths data) →
  "" ∉ Sdf.subLayerPaths data →
  ∃ loaded s1 s2,
    load_sublayers (mkEnv e w) = (inr loaded, s1) ∧
    save_sublayers loaded s1 = (inr tt, s2) ∧
    Sdf.disk (sdf s2) = Sdf.disk w.
Proof.
  intros Hc Hd Hnd Hne.
  pose proof (valid_subLayerPaths_true _ Hnd Hne) as Hv.
  assert (Hload : load_sublayers (mkEnv e w) =
                  (inr (Sdf.subLayerPaths data), reloaded e w data)).
  { unfold load_sublayers.
    rewrite run_bind, (sub_get_layer_reloads e w data Hc Hd).
    run_step. unfold Sdf.get_subLayerPaths, reloaded. simpl.
    by rewrite lookup_insert_eq. }
  exists (Sdf.subLayerPaths data), (reloaded e w data).
  eexists. split; [done|]. split.
  - change (reloaded e w data)
      with (mkEnv (self (reloaded e w data)) (sdf (reloaded e w data))).
    by apply (save_sublayers_accepted _ _ data); [right| |].
  - simpl. destruct data as [paths prims]. simpl.
    by rewrite (insert_id _ _ _ Hd).
Qed.

(** X19: [save_sublayers(new_order)] with a repeated or an empty path in
    [new_order] ends with the error of the library; nothing is assigned or
    saved, the files are as before, and the following [load_sublayers()]
    returns the sublayer paths that the file had. *)
Theorem save_sublayers_refuses (e : t) (w : Sdf.World)
    (data : Sdf.LayerData) (new_order : list string) :
  cache_ok e →
  Sdf.disk w !! usda_path e = Some data →
  ¬ NoDup new_order ∨ "" ∈ new_order →
  ∃ s1,
    save_sublayers new_order (mkEnv e w) = (inl LibraryError, s1) ∧
    Sdf.disk (sdf s1) = Sdf.disk w ∧
    fst (load_sublayers s1) = inr (Sdf.subLayerPaths data).
Proof.
  intros Hc Hd Hbad.
  assert (Hv : Sdf.valid_subLayerPaths new_order = false).
  { unfold Sdf.valid_subLayerPaths. apply andb_false_iff.
    destruct Hbad as [Hdup | Hempty].
    - left. by apply bool_decide_eq_false_2.
    - right. apply bool_decide_eq_false_2. by intros Hn. }
  exists (reloaded e w data).
  split; [by apply save_sublayers_refused|]. split; [done|].
  unfold load_sublayers. rewrite run_bind.
  change (reloaded e w data)
    with (mkEnv (self (reloaded e w data)) (sdf (reloaded e w data))).
  rewrite (sub_get_layer_reloads _ _ data); [|by right|done].
  run_step. unfold Sdf.get_subLayerPaths, reloaded. simpl.
  by rewrite lookup_insert_eq.
Qed.

End SublayerEditorMore.

(** ** The traversal: errors, order and multiplicity *)

(** X14: when the file cannot be opened (no such file, no such layer open),
    [get_prim_paths_with_prepended_refs(usda_path)] raises the "Could not
    open USD layer" error with the file path and leaves the world as it
    was. *)
Theorem get_prim_paths_layer_open_error (usda_path : string)
    (w : Sdf.World) :
  Sdf.disk w !! usda_path = None →
  Sdf.registry w !! usda_path = None →
  get_prim_paths_with_prepended_refs usda_path w =
    (inl (LayerOpenError usda_path), w).
Proof.
  intros Hd Hr. unfold get_prim_paths_with_prepended_refs. run_step.
  unfold Sdf.FindOrOpen. by rewrite Hr, Hd.
Qed.

(** The loop appends to [result] the paths of the specs with prepended
    references, in the order in which it pops them. *)
Lemma visit_pop_order (stack : list Sdf.PrimSpec) (result : list string) :
  visit stack result =
  (result ++
   List.map Sdf.path
     (List.filter has_prepended_refs (concat (List.map pop_order stack))))%list.
Proof.
  funelim (visit stack result); simp visit.
  - simpl. by rewrite app_nil_r.
  - rewrite H. clear H Heqcall.
    rewrite List.map_app, concat_app, List.filter_app, List.map_app.
    rewrite List.map_rev.
    destruct spec as [p op children]. simpl.
    destruct (has_prepended_refs (Sdf.mkPrimSpec p op children)); simpl.
    + rewrite List.filter_app, List.map_app.
      by rewrite <- (List.app_assoc result [p]).
    + by rewrite List.filter_app, List.map_app.
Qed.

(** X15: the list that [get_prim_paths_with_prepended_refs] returns is in
    the order of the stack: the root prims from the last to the first, each
    prim before its descendants, and the children of a prim from the last
    to the first. *)
Theorem get_prim_paths_order (usda_path : string) (w : Sdf.World)
    (data : Sdf.LayerData) :
  Sdf.disk w !! usda_path = Some data →
  fst (get_prim_paths_with_prepended_refs usda_path w) =
    inr (List.map Sdf.path
           (List.filter has_prepended_refs
              (concat (List.map pop_order (rev (Sdf.rootPrims data)))))).
Proof.
  intros Hd.
  assert (Hrun : fst (get_prim_paths_with_prepended_refs usda_path w) =
                 inr (visit (rev (Sdf.rootPrims data)) [])).
  { unfold get_prim_paths_with_prepended_refs. run_step.
    unfold Sdf.FindOrOpen.
    destruct (Sdf.registry w !! usda_path) eqn:Hr; rewrite ?Hd; simpl;
      unfold Sdf.Reload, Sdf.get_rootPrims; simpl; rewrite Hd; simpl;
      by rewrite lookup_insert_eq. }
  by rewrite Hrun, visit_pop_order.
Qed.

Lemma concat_rev_perm {A} (ls : list (list A)) : concat (rev ls) ≡ₚ concat ls.
Proof.
  induction ls as [|l ls IH]; simpl; [done|].
  rewrite concat_app. simpl. rewrite app_nil_r, IH.
  apply Permutation_app_comm.
Qed.

Lemma pop_order_perm (spec : Sdf.PrimSpec) :
  pop_order spec ≡ₚ document_order spec.
Proof.
  induction spec as [p op children IH] using PrimSpec_forest_ind. simpl.
  constructor. rewrite concat_rev_perm.
  induction IH as [|child children Hchild _ IHc]; simpl; [done|].
  by rewrite Hchild, IHc.
Qed.

Lemma filter_perm {A} (f : A → bool) (l1 l2 : list A) :
  l1 ≡ₚ l2 → List.filter f l1 ≡ₚ List.filter f l2.
Proof.
  induction 1 as [|x l1 l2 _ IH|x y l|l1 l2 l3 _ IH1 _ IH2]; simpl.
  - done.
  - destruct (f x); by rewrite IH.
  - destruct (f x), (f y); try done. apply perm_swap.
  - by rewrite IH1.
Qed.

(** X16: the list that [get_prim_paths_with_prepended_refs] returns has
    one entry for each prim of the layer with prepended references, no more
    and no fewer: it is a permutation of the paths of those prims listed in
    document order. *)
Theorem get_prim_paths_once_each (usda_path : string) (w : Sdf.World)
    (data : Sdf.LayerData) :
  Sdf.disk w !! usda_path = Some data →
  ∃ result,
    fst (get_prim_paths_with_prepended_refs usda_path w) = inr result ∧
    result ≡ₚ
      List.map Sdf.path
        (List.filter has_prepended_refs
           (concat (List.map document_order (Sdf.rootPrims data)))).
Proof.
  intros Hd. exists (visit (rev (Sdf.rootPrims data)) []). split.
  - unfold get_prim_paths_with_prepended_refs. run_step.
    unfold Sdf.FindOrOpen.
    destruct (Sdf.registry w !! usda_path) eqn:Hr; rewrite ?Hd; simpl;
      unfold Sdf.Reload, Sdf.get_rootPrims; simpl; rewrite Hd; simpl;
      by rewrite lookup_insert_eq.
  - rewrite visit_pop_order. simpl.
    apply Permutation_map, filter_perm.
    rewrite List.map_rev, concat_rev_perm.
    induction (Sdf.rootPrims data) as [|spec specs IH]; simpl; [done|].
    by rewrite pop_order_perm, IH.
Qed.

(** ** The further properties on the example files *)
Section RunsMore.

(** [load_primrefs()] and [save_primrefs(["a.usda"])] for a file that does
    not exist. *)
Lemma primrefs_layer_open_error_run :
  UsdPrimRefEditor.load_primrefs
    (mkEnv (UsdPrimRefEditor.__init__ "missing.usda" "robotCharComp")
       Example.world) =
    (inl (LayerOpenError "missing.usda"),
     mkEnv (UsdPrimRefEditor.__init__ "missing.usda" "robotCharComp")
       Example.world) ∧
  UsdPrimRefEditor.save_primrefs ["a.usda"]
    (mkEnv (UsdPrimRefEditor.__init__ "missing.usda" "robotCharComp")
       Example.world) =
    (inl (LayerOpenError "missing.usda"),
     mkEnv (UsdPrimRefEditor.__init__ "missing.usda" "robotCharComp")
       Example.world).
Proof.
  apply (primrefs_layer_open_error
           (UsdPrimRefEditor.__init__ "missing.usda" "robotCharComp")
           Example.world ["a.usda"]); reflexivity.
Defined.

(** [load_primrefs()] and [save_primrefs(["a.usda"])] for a prim that
    [shot.usda] does not have. *)
Lemma primrefs_prim_not_found_run :
  fst (UsdPrimRefEditor.load_primrefs
         (mkEnv (UsdPrimRefEditor.__init__ "shot.usda" "noSuchPrim")
            Example.world)) = inl (PrimNotFoundError "/noSuchPrim") ∧
  fst (UsdPrimRefEditor.save_primrefs ["a.usda"]
         (mkEnv (UsdPrimRefEditor.__init__ "shot.usda" "noSuchPrim")
            Example.world)) = inl (PrimNotFoundError "/noSuchPrim") ∧
  Sdf.disk
    (sdf (snd (UsdPrimRefEditor.save_primrefs ["a.usda"]
                 (mkEnv (UsdPrimRefEditor.__init__ "shot.usda" "noSuchPrim")
                    Example.world)))) = Sdf.disk Example.world.
Proof.
  apply (primrefs_prim_not_found
           (UsdPrimRefEditor.__init__ "shot.usda" "noSuchPrim")
           Example.world Example.shot ["a.usda"]).
  - by left.
  - reflexivity.
  - reflexivity.
  - discriminate.
Defined.

(** [load_primrefs()] of the editor constructed with the empty prim
    path. *)
Lemma load_primrefs_pseudo_root_run :
  fst (UsdPrimRefEditor.load_primrefs
         (mkEnv (UsdPrimRefEditor.__init__ "shot.usda" "") Example.world)) =
    inr [].
Proof.
  apply (load_primrefs_pseudo_root
           (UsdPrimRefEditor.__init__ "shot.usda" "") Example.world
           Example.shot).
  - by left.
  - reflexivity.
  - reflexivity.
  - reflexivity.
Defined.

(** [save_primrefs(["c.usda", "a.usda"])] with the layer open and its file
    gone, then [load_primrefs()]. *)
Lemma save_primrefs_without_file_run :
  ∃ s1,
    UsdPrimRefEditor.save_primrefs ["c.usda"; "a.usda"]
      (mkEnv Scenario.robot_editor Scenario.orphan_world) = (inr tt, s1) ∧
    is_Some (Sdf.disk (sdf s1) !! "shot.usda") ∧
    fst (UsdPrimRefEditor.load_primrefs s1) = inr ["c.usda"; "a.usda"].
Proof.
  apply (save_primrefs_without_file Scenario.robot_editor
           Scenario.orphan_world Example.shot Example.robotCharComp
           (Sdf.mkReferenceListOp
              [Example.ref_a; Example.ref_b; Example.ref_c] [])
           ["c.usda"; "a.usda"]).
  - by right.
  - reflexivity.
  - reflexivity.
  - reflexivity.
  - reflexivity.
  - apply (bool_decide_unpack _). reflexivity.
  - apply (bool_decide_unpack _). reflexivity.
Defined.

(** [load_primrefs()] with a layer in memory that is behind the file: the
    three references of the file, not the two that the layer held. *)
Lemma load_primrefs_reads_file_order_run :
  fst (UsdPrimRefEditor.load_primrefs
         (mkEnv Scenario.robot_editor Scenario.stale_world)) =
    inr ["a.usda"; "b.usda"; "c.usda"].
Proof.
  apply (load_primrefs_reads_file_order Scenario.robot_editor
           Scenario.stale_world Example.shot Example.robotCharComp
           (Sdf.mkReferenceListOp
              [Example.ref_a; Example.ref_b; Example.ref_c] [])).
  - by right.
  - reflexivity.
  - reflexivity.
  - reflexivity.
Defined.

(** [load_primrefs()], then [shot.usda] is replaced from outside, then
    [load_primrefs()] again. *)
Lemma load_primrefs_after_external_write_run :
  ∃ first_result s1,
    UsdPrimRefEditor.load_primrefs
      (mkEnv Example.robot_editor Example.world) = (first_result, s1) ∧
    fst (UsdPrimRefEditor.load_primrefs
           (mkEnv (self s1)
              (external_write "shot.usda" Scenario.shot_before (sdf s1)))) =
      inr ["c.usda"; "a.usda"].
Proof.
  apply (load_primrefs_after_external_write Example.robot_editor
           Example.world Example.shot Scenario.shot_before
           (Sdf.mkPrimSpec "/robotCharComp"
              (Some (Sdf.mkReferenceListOp
                       [Example.ref_c; Example.ref_a] [])) [])
           (Sdf.mkReferenceListOp [Example.ref_c; Example.ref_a] [])).
  - by left.
  - reflexivity.
  - reflexivity.
  - reflexivity.
Defined.

(** The files after [save_primrefs(["c.usda", "a.usda", "b.usda"])]. *)
Lemma save_primrefs_never_writes_run :
  Sdf.disk
    (sdf (snd (UsdPrimRefEditor.save_primrefs ["c.usda"; "a.usda"; "b.usda"]
                 (mkEnv Example.robot_editor Example.world)))) =
  Sdf.disk Example.world.
Proof.
  apply (save_primrefs_never_writes Example.robot_editor Example.world
           Example.shot ["c.usda"; "a.usda"; "b.usda"]).
  - by left.
  - reflexivity.
Defined.

(** [save_primrefs(["a.usda", "a.usda"])] is accepted. *)
Lemma save_primrefs_succeeds_iff_known_run :
  fst (UsdPrimRefEditor.save_primrefs ["a.usda"; "a.usda"]
         (mkEnv Example.robot_editor Example.world)) = inr tt.
Proof.
  apply (save_primrefs_succeeds_iff_known Example.robot_editor Example.world
           Example.shot Example.robotCharComp
           (Sdf.mkReferenceListOp
              [Example.ref_a; Example.ref_b; Example.ref_c] [])
           ["a.usda"; "a.usda"]).
  - by left.
  - reflexivity.
  - reflexivity.
  - reflexivity.
  - apply (bool_decide_unpack _). reflexivity.
Defined.

(** The editor after [load_primrefs()] and after
    [save_primrefs(["nonexistent"])]. *)
Lemma primref_editor_keeps_target_run :
  UsdPrimRefEditor.same_editor Example.robot_editor
    (self (snd (UsdPrimRefEditor.load_primrefs
                  (mkEnv Example.robot_editor Example.world)))) ∧
  UsdPrimRefEditor.same_editor Example.robot_editor
    (self (snd (UsdPrimRefEditor.save_primrefs ["nonexistent"]
                  (mkEnv Example.robot_editor Example.world)))).
Proof.
  apply (primref_editor_keeps_target Example.robot_editor Example.world
           ["nonexistent"]).
  by left.
Defined.

(** Two references with the asset path "a.usda": the dictionary has the
    second. *)
Lemma by_asset_of_last_wins_run :
  UsdPrimRefEditor.by_asset_of
    ([Example.ref_a] ++ Scenario.ref_a_rig :: [Example.ref_b]) !! "a.usda" =
    Some Scenario.ref_a_rig.
Proof.
  apply (by_asset_of_last_wins [Example.ref_a] [Example.ref_b]
           Scenario.ref_a_rig).
  apply (bool_decide_unpack _). reflexivity.
Defined.

(** [load_sublayers()] and [save_sublayers(["x.usda"])] for a file that
    does not exist. *)
Lemma sublayers_layer_open_error_run :
  UsdaSublayerEditor.load_sublayers
    (mkEnv (UsdaSublayerEditor.__init__ "missing.usda") Example.world) =
    (inl (LayerOpenError "missing.usda"),
     mkEnv (UsdaSublayerEditor.__init__ "missing.usda") Example.world) ∧
  UsdaSublayerEditor.save_sublayers ["x.usda"]
    (mkEnv (UsdaSublayerEditor.__init__ "missing.usda") Example.world) =
    (inl (LayerOpenError "missing.usda"),
     mkEnv (UsdaSublayerEditor.__init__ "missing.usda") Example.world).
Proof.
  apply (sublayers_layer_open_error
           (UsdaSublayerEditor.__init__ "missing.usda") Example.world
           ["x.usda"]); reflexivity.
Defined.

(** [load_sublayers()] with a layer in memory that is behind the file. *)
Lemma load_sublayers_reads_file_run :
  fst (UsdaSublayerEditor.load_sublayers
         (mkEnv Scenario.shot_editor Scenario.stale_world)) =
    inr ["layout.usda"; "lighting.usda"].
Proof.
  apply (load_sublayers_reads_file Scenario.shot_editor Scenario.stale_world
           Example.shot).
  - by right.
  - reflexivity.
Defined.

(** [scene.usda] after [save_sublayers(["x.usda"])] on [shot.usda]. *)
Lemma save_sublayers_other_files_run :
  Sdf.disk
    (sdf (snd (UsdaSublayerEditor.save_sublayers ["x.usda"]
                 (mkEnv (UsdaSublayerEditor.__init__ "shot.usda")
                    Example.world)))) !! "scene.usda" =
  Sdf.disk Example.world !! "scene.usda".
Proof.
  apply (save_sublayers_other_files
           (UsdaSublayerEditor.__init__ "shot.usda") Example.world
           ["x.usda"] "scene.usda").
  - by left.
  - discriminate.
Defined.

(** [save_sublayers(load_sublayers())] on [shot.usda]. *)
Lemma save_loaded_sublayers_run :
  ∃ loaded s1 s2,
    UsdaSublayerEditor.load_sublayers
      (mkEnv (UsdaSublayerEditor.__init__ "shot.usda") Example.world) =
      (inr loaded, s1) ∧
    UsdaSublayerEditor.save_sublayers loaded s1 = (inr tt, s2) ∧
    Sdf.disk (sdf s2) = Sdf.disk Example.world.
Proof.
  apply (save_loaded_sublayers (UsdaSublayerEditor.__init__ "shot.usda")
           Example.world Example.shot).
  - by left.
  - reflexivity.
  - apply (bool_decide_unpack _). reflexivity.
  - apply (bool_decide_unpack _). reflexivity.
Defined.

(** [save_sublayers(["x.usda", ""])] on [shot.usda], then
    [load_sublayers()]. *)
Lemma save_sublayers_refuses_run :
  ∃ s1,
    UsdaSublayerEditor.save_sublayers ["x.usda"; ""]
      (mkEnv (UsdaSublayerEditor.__init__ "shot.usda") Example.world) =
      (inl LibraryError, s1) ∧
    Sdf.disk (sdf s1) = Sdf.disk Example.world ∧
    fst (UsdaSublayerEditor.load_sublayers s1) =
      inr ["layout.usda"; "lighting.usda"].
Proof.
  apply (save_sublayers_refuses (UsdaSublayerEditor.__init__ "shot.usda")
           Example.world Example.shot ["x.usda"; ""]).
  - by left.
  - reflexivity.
  - right. apply (bool_decide_unpack _). reflexivity.
Defined.

(** [get_prim_paths_with_prepended_refs("missing.usda")] *)
Lemma get_prim_paths_layer_open_error_run :
  get_prim_paths_with_prepended_refs "missing.usda" Example.world =
    (inl (LayerOpenError "missing.usda"), Example.world).
Proof.
  apply (get_prim_paths_layer_open_error "missing.usda" Example.world);
    reflexivity.
Defined.

(** The order of the result on [scene.usda], whose root prims are [/A],
    with the child [/A/B], and [/C]. *)
Lemma get_prim_paths_order_run :
  fst (get_prim_paths_with_prepended_refs "scene.usda" Example.world) =
    inr (List.map Sdf.path
           (List.filter has_prepended_refs
              (concat (List.map pop_order
                         (rev (Sdf.rootPrims Example.scene)))))).
Proof.
  apply (get_prim_paths_order "scene.usda" Example.world Example.scene).
  reflexivity.
Defined.

(** The result on [scene.usda] against the document order ["/A/B"; "/C"]. *)
Lemma get_prim_paths_once_each_run :
  ∃ result,
    fst (get_prim_paths_with_prepended_refs "scene.usda" Example.world) =
      inr result ∧
    result ≡ₚ
      List.map Sdf.path
        (List.filter has_prepended_refs
           (concat (List.map document_order
                      (Sdf.rootPrims Example.scene)))).
Proof.
  apply (get_prim_paths_once_each "scene.usda" Example.world Example.scene).
  reflexivity.
Defined.

End RunsMore.
